(** * tp1: sorting algorithms and container benchmark

    A shallow embedding of [tp1/sorting.py] and [tp1/datastructures.py].

    - A Python [str] is a sequence of code points ([list N]); [<], [>], [<=]
      on [str] are the lexicographic comparisons of CPython.
    - A Python [list] is a mutable object: it lives in a store, and a
      variable holds a reference to it.  The three sorting functions are
      programs of a state-and-exception monad over that store, so that
      [arr = data[:]] really allocates and [arr[j] = v] really writes.
    - Every item access is recorded in a trace, so that the loop structure of
      a sort can be observed.
    - A [dict] keeps its keys in insertion order, so it is an association
      list; a [deque] is a list with its head at the left. *)

From Equations Require Import Equations.
From Stdlib Require Import ZArith NArith.
From Stdlib Require Ascii String.
From stdpp Require Import base numbers option list list_numbers sorting strings gmap.

Local Open Scope Z_scope.

(** ** Python strings *)

Module Str.

Definition str : Type := list N.

(** The code points of an ASCII literal. *)
Definition of_string (s : String.string) : str :=
  Ascii.N_of_ascii <$> String.list_ascii_of_string s.

(** [unicode_compare]: the first position where the strings differ decides;
    a proper prefix is smaller. *)
Fixpoint compare (a b : str) : comparison :=
  match a, b with
  | [], [] => Eq
  | [], _ :: _ => Lt
  | _ :: _, [] => Gt
  | x :: a', y :: b' =>
      match (x ?= y)%N with
      | Eq => compare a' b'
      | c => c
      end
  end.

Definition lt (a b : str) : bool :=
  match compare a b with Lt => true | _ => false end.
Definition gt (a b : str) : bool :=
  match compare a b with Gt => true | _ => false end.
Definition le (a b : str) : bool :=
  match compare a b with Gt => false | _ => true end.

(** [_PyUnicode_IsWhitespace]: the code points [str.strip()] removes. *)
Definition is_space (c : N) : bool :=
  ((9 <=? c) && (c <=? 13) || (28 <=? c) && (c <=? 32)
   || (c =? 133) || (c =? 160) || (c =? 5760)
   || (8192 <=? c) && (c <=? 8202)
   || (c =? 8232) || (c =? 8233) || (c =? 8239) || (c =? 8287)
   || (c =? 12288))%N.

Fixpoint lstrip (s : str) : str :=
  match s with
  | [] => []
  | c :: s' => if is_space c then lstrip s' else s
  end.

Definition rstrip (s : str) : str := reverse (lstrip (reverse s)).

(** [s.strip()] *)
Definition strip (s : str) : str := rstrip (lstrip s).

(** Truth value of a string: non-empty. *)
Definition truthy (s : str) : bool :=
  match s with [] => false | _ :: _ => true end.

End Str.

Abbreviation str := Str.str.

(** ** Rich comparison *)

(** The comparison methods the sorting code calls on its elements. *)
Class PyOrd (A : Type) := {
py_lt : A → A → bool;
py_gt : A → A → bool;
py_le : A → A → bool
}.

(** The comparisons describe one weak order: [>] is [<] flipped, [<=] is
  "not [>]", [<] is asymmetric and [<=] is transitive. *)
Class PyOrdLaws (A : Type) `{PyOrd A} := {
py_gt_lt (a b : A) : py_gt a b = py_lt b a;
py_le_gt (a b : A) : py_le a b = negb (py_gt a b);
py_lt_asym (a b : A) : py_lt a b = true → py_lt b a = false;
py_le_trans (a b c : A) : py_le a b = true → py_le b c = true → py_le a c = true
}.

(** A total order: elements that compare equal are equal. *)
Class PyOrdTotal (A : Type) `{PyOrdLaws A} := {
py_le_antisym (a b : A) : py_le a b = true → py_le b a = true → a = b
}.

Global Instance str_ord : PyOrd str :=
{| py_lt := Str.lt; py_gt := Str.gt; py_le := Str.le |}.

(** An element that remembers the position it had in the input; it compares
  by its value alone. *)
Definition tagged (A : Type) : Type := A * nat.

Global Instance tagged_ord {A} `{PyOrd A} : PyOrd (tagged A) :=
{| py_lt x y := py_lt x.1 y.1;
   py_gt x y := py_gt x.1 y.1;
   py_le x y := py_le x.1 y.1 |}.

Definition tag_positions {A} (l : list A) : list (tagged A) :=
imap (fun i x => (x, i)) l.

(** ** The store of list objects *)

Definition loc : Type := positive.

Section Store.
Context {A : Type}.

(** An access to an item of a list object: [arr[k]] read with result [v],
    or [arr[k] = v]. *)
Inductive event : Type :=
| GetItem (a : loc) (k : Z) (v : A)
| SetItem (a : loc) (k : Z) (v : A).

Record state : Type := State {
  heap : gmap loc (list A);
  trace : list event
}.

(** A computation returns a value and a new state, or raises ([None]). *)
Definition M (X : Type) : Type := state → option (X * state).

Definition ret {X} (x : X) : M X := fun σ => Some (x, σ).

Definition bind {X Y} (m : M X) (f : X → M Y) : M Y :=
  fun σ => match m σ with
           | Some (x, σ') => f x σ'
           | None => None
           end.

(** List subscript: [0 <= k < n] counts from the left, [-n <= k < 0] from
    the right, anything else is an [IndexError]. *)
Definition py_index (n : nat) (k : Z) : option nat :=
  if bool_decide (0 ≤ k < Z.of_nat n) then Some (Z.to_nat k)
  else if bool_decide (- Z.of_nat n ≤ k < 0) then Some (Z.to_nat (Z.of_nat n + k))
  else None.

(** [data[:]]: a new list object with the same items. *)
Definition list_copy (d : loc) : M loc :=
  fun σ => match heap σ !! d with
           | Some l =>
               let a := fresh (dom (heap σ)) in
               Some (a, State (<[a := l]> (heap σ)) (trace σ))
           | None => None
           end.

(** [len(a)] *)
Definition len (a : loc) : M Z :=
  fun σ => match heap σ !! a with
           | Some l => Some (Z.of_nat (length l), σ)
           | None => None
           end.

(** [a[k]] *)
Definition getitem (a : loc) (k : Z) : M A :=
  fun σ => match heap σ !! a with
           | Some l =>
               match py_index (length l) k ≫= (l !!.) with
               | Some v => Some (v, State (heap σ) (trace σ ++ [GetItem a k v]))
               | None => None
               end
           | None => None
           end.

(** [a[k] = v] *)
Definition setitem (a : loc) (k : Z) (v : A) : M unit :=
  fun σ => match heap σ !! a with
           | Some l =>
               match py_index (length l) k with
               | Some i =>
                   Some ((), State (<[a := <[i := v]> l]> (heap σ))
                                   (trace σ ++ [SetItem a k v]))
               | None => None
               end
           | None => None
           end.

(** [range(lo, hi)] *)
Definition range (lo hi : Z) : list Z := seqZ lo (hi - lo).

(** [for x in xs: body], where [s] holds the local variables the body
    assigns. *)
Fixpoint for_in {X S} (xs : list X) (body : X → S → M S) (s : S) : M S :=
  match xs with
  | [] => ret s
  | x :: xs' => bind (body x s) (for_in xs' body)
  end.

End Store.

Arguments event : clear implicits.
Arguments state : clear implicits.
Arguments M : clear implicits.

Declare Scope py_scope.
Delimit Scope py_scope with py.
Notation "x <- m ;; k" := (bind m (fun x => k))
(at level 100, m at next level, right associativity) : py_scope.
Notation "m ;;; k" := (bind m (fun _ => k))
(at level 100, right associativity) : py_scope.

(** ** tp1/sorting.py *)

Section Sorting.
Context {A : Type} `{PyOrd A}.
Local Open Scope py_scope.

(** [if arr[j] > arr[j + 1]: arr[j], arr[j + 1] = arr[j + 1], arr[j]] *)
Definition bubble_step (arr : loc) (j : Z) : M A unit :=
  x <- getitem arr j ;;
  y <- getitem arr (j + 1) ;;
  if py_gt x y then
    a <- getitem arr (j + 1) ;;
    b <- getitem arr j ;;
    setitem arr j a ;;;
    setitem arr (j + 1) b
  else ret ().

Definition bubble_sort (data : loc) : M A loc :=
  arr <- list_copy data ;;
  n <- len arr ;;
  for_in (range 0 n) (fun i _ =>
    for_in (range 0 (n - i - 1)) (fun j _ => bubble_step arr j) ()) () ;;;
  ret arr.

(** [if arr[j] < arr[min_idx]: min_idx = j] *)
Definition selection_step (arr : loc) (j : Z) (min_idx : Z) : M A Z :=
  x <- getitem arr j ;;
  y <- getitem arr min_idx ;;
  if py_lt x y then ret j else ret min_idx.

(** [arr[i], arr[min_idx] = arr[min_idx], arr[i]] *)
Definition swap_items (arr : loc) (i min_idx : Z) : M A unit :=
  a <- getitem arr min_idx ;;
  b <- getitem arr i ;;
  setitem arr i a ;;;
  setitem arr min_idx b.

Definition selection_sort (data : loc) : M A loc :=
  arr <- list_copy data ;;
  n <- len arr ;;
  for_in (range 0 n) (fun i _ =>
    min_idx <- for_in (range (i + 1) n) (selection_step arr) i ;;
    swap_items arr i min_idx) () ;;;
  ret arr.

(** [while j >= 0 and arr[j] > key: arr[j + 1] = arr[j]; j -= 1],
    returning the final [j]. *)
Equations? shift_while (arr : loc) (key : A) (j : Z) (σ : state A) :
    option (Z * state A) by wf (Z.to_nat (j + 1)) lt :=
  shift_while arr key j σ with decide (0 ≤ j) => {
    | right _ => Some (j, σ)
    | left _ with getitem arr j σ => {
        | None => None
        | Some (x, σ1) with py_gt x key => {
            | false => Some (j, σ1)
            | true with (v <- getitem arr j ;; setitem arr (j + 1) v) σ1 => {
                | None => None
                | Some (_, σ2) => shift_while arr key (j - 1) σ2 } } } }.
Proof. lia. Qed.

Definition insertion_step (arr : loc) (i : Z) : M A unit :=
  key <- getitem arr i ;;
  j <- shift_while arr key (i - 1) ;;
  setitem arr (j + 1) key.

Definition insertion_sort (data : loc) : M A loc :=
  arr <- list_copy data ;;
  n <- len arr ;;
  for_in (range 1 n) (fun i _ => insertion_step arr i) () ;;;
  ret arr.

End Sorting.

(** ** tp1/datastructures.py *)

(** *** dict: keys in insertion order *)

Section Dict.
Context {K V : Type} `{EqDecision K}.

Definition dict : Type := list (K * V).

(** [d[k] = v]: a key already present keeps its place, a new key goes last. *)
Fixpoint dict_set (d : dict) (k : K) (v : V) : dict :=
  match d with
  | [] => [(k, v)]
  | (k', v') :: d' =>
      if decide (k' = k) then (k', v) :: d' else (k', v') :: dict_set d' k v
  end.

(** [d[k]], [None] for a [KeyError]. *)
Fixpoint dict_get (d : dict) (k : K) : option V :=
  match d with
  | [] => None
  | (k', v') :: d' => if decide (k' = k) then Some v' else dict_get d' k
  end.

(** [list(d.keys())] *)
Definition dict_keys (d : dict) : list K := d.*1.

(** [k in d] *)
Definition dict_contains (d : dict) (k : K) : bool :=
  bool_decide (k ∈ dict_keys d).

(** [del d[k]], [None] for a [KeyError]. *)
Fixpoint dict_del (d : dict) (k : K) : option dict :=
  match d with
  | [] => None
  | (k', v') :: d' =>
      if decide (k' = k) then Some d' else ((k', v') ::.) <$> dict_del d' k
  end.

End Dict.

Arguments dict : clear implicits.

Module Bench.

(** The three containers [main] builds. *)
Record containers : Type := Containers {
  hashtable : dict str Z;
  stack : list str;
  queue : list str
}.

Inductive kind : Type := Stack | Queue | Hashtable.

(** A printed line of the retrieval phase: ["<kind> position <pos>: <x>"] or
    ["<kind> position <pos> out of range!"]. *)
Inductive notice : Type :=
| Found (c : kind) (pos : Z) (x : str)
| OutOfRange (c : kind) (pos : Z).

(** [[line.strip() for line in f.readlines() if line.strip()]], from the
    lines [readlines()] returned. *)
Fixpoint load (raw : list str) : list str :=
  match raw with
  | [] => []
  | line :: rest =>
      if Str.truthy (Str.strip line) then Str.strip line :: load rest
      else load rest
  end.

(** [enumerate(lines)] *)
Definition enumerate {X} (xs : list X) : list (Z * X) :=
  imap (fun i x => (Z.of_nat i, x)) xs.

(** [hashtable = {}; for i, line in enumerate(lines): hashtable[line] = i] *)
Definition build_hashtable (lines : list str) : dict str Z :=
  foldl (fun d '(i, line) => dict_set d line i) [] (enumerate lines).

(** [stack = []; for line in lines: stack.append(line)] *)
Definition build_stack (lines : list str) : list str :=
  foldl (fun s line => s ++ [line]) [] lines.

(** [queue = deque(); for line in lines: queue.append(line)] *)
Definition build_queue (lines : list str) : list str :=
  foldl (fun q line => q ++ [line]) [] lines.

Definition build (lines : list str) : containers :=
  Containers (build_hashtable lines) (build_stack lines) (build_queue lines).

(** [positions = [1, 100, 1000, 5000, len(lines)]] *)
Definition positions (lines : list str) : list Z :=
  [1; 100; 1000; 5000; Z.of_nat (length lines)].

(** [xs[k]] on a list value, [None] for an [IndexError]. *)
Definition subscript {X} (xs : list X) (k : Z) : option X :=
  py_index (length xs) k ≫= (xs !!.).

(** [if pos <= len(xs): print(xs[pos-1]) else: print("out of range!")] *)
Definition probe (c : kind) (xs : list str) (pos : Z) : option notice :=
  if bool_decide (pos ≤ Z.of_nat (length xs))
  then x ← subscript xs (pos - 1); Some (Found c pos x)
  else Some (OutOfRange c pos).

(** [for pos in positions: ...] over one indexable sequence. *)
Definition probe_all (c : kind) (xs : list str) (ps : list Z) :
    option (list notice) :=
  mapM (probe c xs) ps.

(** The retrieval phase: the stack itself, [list(queue)], and
    [list(hashtable.keys())], which is returned for the removal phase. *)
Definition retrieve (lines : list str) (cs : containers) :
    option (list notice * list str) :=
  let ps := positions lines in
  out_s ← probe_all Stack (stack cs) ps;
  let queue_list := queue cs in
  out_q ← probe_all Queue queue_list ps;
  let hashtable_keys := dict_keys (hashtable cs) in
  out_h ← probe_all Hashtable hashtable_keys ps;
  Some (out_s ++ out_q ++ out_h, hashtable_keys).

(** [xs.pop()], [None] for an [IndexError]. *)
Definition list_pop {X} (xs : list X) : option (X * list X) :=
  match last xs with
  | Some x => Some (x, removelast xs)
  | None => None
  end.

(** [q.popleft()], [None] for an [IndexError]. *)
Definition popleft {X} (q : list X) : option (X * list X) :=
  match q with
  | x :: q' => Some (x, q')
  | [] => None
  end.

(** Truth value of a container: non-empty. *)
Definition nonempty {X} (xs : list X) : bool :=
  match xs with [] => false | _ :: _ => true end.

(** [for x in xs: s = body(x, s)], where the body may raise. *)
Fixpoint for_each {X S} (xs : list X) (body : X → S → option S) (s : S) :
    option S :=
  match xs with
  | [] => Some s
  | x :: xs' => s' ← body x s; for_each xs' body s'
  end.

(** [for _ in range(10): if stack: stack.pop()] *)
Definition remove_stack (st : list str) : option (list str) :=
  for_each (range 0 10) (fun _ st =>
    if nonempty st then snd <$> list_pop st else Some st) st.

(** [for _ in range(10): if queue: queue.popleft()] *)
Definition remove_queue (q : list str) : option (list str) :=
  for_each (range 0 10) (fun _ q =>
    if nonempty q then snd <$> popleft q else Some q) q.

(** [to_remove = hashtable_keys[:10]]
    [for key in to_remove: if key in hashtable: del hashtable[key]] *)
Definition remove_hashtable (hashtable_keys : list str) (d : dict str Z) :
    option (dict str Z) :=
  let to_remove := take 10 hashtable_keys in
  for_each to_remove (fun key d =>
    if dict_contains d key then dict_del d key else Some d) d.

Definition remove_ten (hashtable_keys : list str) (cs : containers) :
    option containers :=
  st ← remove_stack (stack cs);
  q ← remove_queue (queue cs);
  d ← remove_hashtable hashtable_keys (hashtable cs);
  Some (Containers d st q).

(** [f"new_file{i}"] for [i] in [range(10)]: one decimal digit. *)
Definition new_file (i : Z) : str :=
  Str.of_string "new_file"%string ++ [Z.to_N (48 + i)].

(** [new_lines = [f"new_file{i}" for i in range(10)]] *)
Definition new_lines : list str := new_file <$> range 0 10.

(** The three insertion loops over [new_lines]. *)
Definition insert_ten (cs : containers) : containers :=
  Containers
    (foldl (fun d '(i, line) => dict_set d line (i + 999999))
           (hashtable cs) (enumerate new_lines))
    (foldl (fun s line => s ++ [line]) (stack cs) new_lines)
    (foldl (fun q line => q ++ [line]) (queue cs) new_lines).

(** [main], from the lines of the listing file: the printed retrieval
    notices and the containers at the end, or [None] when an exception
    escapes. *)
Definition main (raw : list str) : option (list notice * containers) :=
  let lines := load raw in
  let cs := build lines in
  '(out, hashtable_keys) ← retrieve lines cs;
  cs' ← remove_ten hashtable_keys cs;
  Some (out, insert_ten cs').

End Bench.


(** ** tp1/sorting.py: the timing harness *)

(** A list display or comprehension: a new list object holding [l]. *)
Definition list_new {A} (l : list A) : M A loc :=
  fun σ =>
    let a := fresh (dom (heap σ)) in
    Some (a, State (<[a := l]> (heap σ)) (trace σ)).

Module SortBench.
Section Clock.

(** [time.perf_counter] is outside the repository: [perf_counter k] is what
    its [k]-th call returns, in some type [T] of clock readings with a
    subtraction [minus].  A computation that reads the clock is given the
    number of calls made so far and returns the new number. *)
Context {T : Type} (perf_counter : nat → T) (minus : T → T → T).
Local Open Scope py_scope.

(** The line ["<sort_name> took <duration> seconds to sort <items> items."] *)
Record report : Type := Report {
  sort_name : String.string;
  duration : T;
  items : Z
}.

Definition measure_sort_time (sort_func : loc → M str loc) (data : loc)
    (calls : nat) : M str ((loc * T) * nat) :=
  let start_time := perf_counter calls in
  sorted_data <- sort_func data ;;
  let end_time := perf_counter (S calls) in
  ret ((sorted_data, minus end_time start_time), S (S calls)).

(** The list [main] iterates over. *)
Definition sorts : list (String.string * (loc → M str loc)) :=
  [("Bubble Sort"%string, bubble_sort);
   ("Selection Sort"%string, selection_sort);
   ("Insertion Sort"%string, insertion_sort)].

(** [main], from the lines [readlines()] returned: the reference of [lines]
    and the printed reports. *)
Definition main (raw : list str) : M str (loc * list report) :=
  lines <- list_new (Bench.load raw) ;;
  acc <- for_in sorts (fun '(name, func) '(out, calls) =>
           r <- measure_sort_time func lines calls ;;
           n <- len lines ;;
           ret (out ++ [Report name (snd (fst r)) n], snd r))
         ([], 0%nat) ;;
  ret (lines, fst acc).

End Clock.
End SortBench.

Arguments SortBench.report : clear implicits.
Arguments SortBench.Report {T}.

(** *** Counting accesses *)

(** [arr[k] = v], as opposed to a read. *)
Definition is_write {A} (e : event A) : bool :=
  match e with
  | SetItem _ _ _ => true
  | GetItem _ _ _ => false
  end.

(** The number of writes in a trace. *)
Definition writes {A} (t : list (event A)) : nat :=
  length (filter (fun e => is_write e = true) t).

(** ** Specification vocabulary *)

Section Vocabulary.
Context {A : Type}.

(** [runs m arr l x l' t]: from any state where the list object [arr] holds
    [l], the computation [m] returns [x], leaves [l'] in [arr], touches no
    other object and appends the accesses [t] to the trace. *)
Definition runs {X} (m : M A X) (arr : loc) (l : list A) (x : X)
    (l' : list A) (t : list (event A)) : Prop :=
  ∀ σ, heap σ !! arr = Some l →
       m σ = Some (x, State (<[arr := l']> (heap σ)) (trace σ ++ t)).

(** The list a sorting function returns: the contents, in the final store,
    of the object whose reference it returned. *)
Definition result (m : M A loc) (σ : state A) : option (list A) :=
  match m σ with
  | Some (arr, σ') => heap σ' !! arr
  | None => None
  end.

(** [result[i] <= result[i+1]] for every adjacent pair. *)
Definition non_decreasing `{PyOrd A} (l : list A) : Prop :=
  ∀ i x y, l !! i = Some x → l !! S i = Some y → py_le x y = true.

(** Every earlier item is [<=] every later one. *)
Definition ordered `{PyOrd A} (l : list A) : Prop :=
  ∀ i j x y, (i < j)%nat → l !! i = Some x → l !! j = Some y →
             py_le x y = true.

(** [<=] as a relation. *)
Definition py_le_rel `{PyOrd A} : relation A := fun x y => py_le x y = true.

(** [x] and [y] compare equal: neither is smaller. *)
Definition py_equiv `{PyOrd A} (x y : A) : bool := py_le x y && py_le y x.

(** The items that compare equal to [v], in the order they have in [l]. *)
Definition equals_of `{PyOrd A} (v : A) (l : list A) : list A :=
  filter (fun x => py_equiv v x = true) l.

(** The position the item at position [i] takes when the items at [a] and
    [b] are exchanged. *)
Definition swap_idx (a b i : nat) : nat :=
  if decide (i = b) then a else if decide (i = a) then b else i.

(** Every item at a position [>= b] is [>=] every item before it. *)
Definition settled_from `{PyOrd A} (b : nat) (l : list A) : Prop :=
  ∀ p q x y, (p < q)%nat → (b ≤ q)%nat →
             l !! p = Some x → l !! q = Some y → py_le x y = true.

(** The item at position [k] is [>=] every item before it. *)
Definition max_at `{PyOrd A} (k : nat) (l : list A) : Prop :=
  ∀ p x y, (p < k)%nat → l !! p = Some x → l !! k = Some y → py_le x y = true.

(** Every item before position [k] is [<=] every item after it. *)
Definition settled_upto `{PyOrd A} (k : nat) (l : list A) : Prop :=
  ∀ p q x y, (p < q)%nat → (p < k)%nat →
             l !! p = Some x → l !! q = Some y → py_le x y = true.

(** The item at [m] is [<=] every item at a position in [[i, b)]. *)
Definition min_at `{PyOrd A} (i b m : nat) (l : list A) : Prop :=
  ∀ q y z, (i ≤ q < b)%nat → l !! m = Some y → l !! q = Some z →
           py_le y z = true.

End Vocabulary.

(** The items with equal values occur in the order of their input
    positions. *)
Definition positions_kept {A} (r : list (tagged A)) : Prop :=
  ∀ p q x y, (p < q)%nat → r !! p = Some x → r !! q = Some y →
             x.1 = y.1 → (x.2 < y.2)%nat.

(** *** The loop structure of bubble sort, as seen in the trace *)

(** One execution of the inner loop body: on pass [pass], the items at
    [pos] and [pos + 1] were read as [left_item] and [right_item], and [swapped] tells
    whether they were exchanged. *)
Record step (A : Type) : Type := Step {
  pass : Z;
  pos : Z;
  left_item : A;
  right_item : A;
  swapped : bool
}.
Arguments Step {A}.
Arguments pass {A}.
Arguments pos {A}.
Arguments left_item {A}.
Arguments right_item {A}.
Arguments swapped {A}.

(** The accesses of one step: the two reads of the comparison, then, for an
    exchange, the two reads and the two writes of the tuple assignment. *)
Definition step_events {A} (arr : loc) (s : step A) : list (event A) :=
  [GetItem arr (pos s) (left_item s); GetItem arr (pos s + 1) (right_item s)] ++
  if swapped s
  then [GetItem arr (pos s + 1) (right_item s); GetItem arr (pos s) (left_item s);
        SetItem arr (pos s) (right_item s); SetItem arr (pos s + 1) (left_item s)]
  else [].

(** The step follows the comparison: it exchanged the items exactly when the
    left one was strictly greater. *)
Definition follows_comparison {A} `{PyOrd A} (s : step A) : Prop :=
  swapped s = py_gt (left_item s) (right_item s).

(** The classic schedule: passes [i = 0 .. n-1], and on pass [i] the
    positions [j = 0 .. n-i-2]. *)
Definition classic_schedule (n : Z) : list (Z * Z) :=
  i ← range 0 n; j ← range 0 (n - i - 1); [(i, j)].

(** A store that holds the single list [l], at reference [1], with an empty
    trace. *)
Definition store_of {A} (l : list A) : state A :=
  State {[1%positive := l]} [].

(** The strings of a list of ASCII literals. *)
Definition strs (l : list String.string) : list str := Str.of_string <$> l.

(** *** The keys of the map, as the specification words them *)

(** The distinct items of a list, each at the place of its first
    occurrence. *)
Fixpoint first_occurrences {X} `{EqDecision X} (l : list X) : list X :=
  match l with
  | [] => []
  | x :: l' => x :: filter (fun y => y ≠ x) (first_occurrences l')
  end.

(** A line that holds nothing but whitespace. *)
Definition blank (line : str) : Prop :=
  Forall (fun c => Str.is_space c = true) line.

(** * Properties *)

(** ** The order on strings *)

Module StrFacts.

Lemma compare_antisym (a b : str) :
  Str.compare b a = CompOpp (Str.compare a b).
Proof.
  revert b. induction a as [|x a IH]; intros [|y b]; simpl; try done.
  rewrite (N.compare_antisym x y).
  destruct (x ?= y)%N; simpl; auto.
Qed.

Lemma compare_eq (a b : str) : Str.compare a b = Eq → a = b.
Proof.
  revert b. induction a as [|x a IH]; intros [|y b]; simpl; try done.
  destruct (x ?= y)%N eqn:E; try done.
  apply N.compare_eq in E. intros ?%IH. congruence.
Qed.

Lemma compare_refl (a : str) : Str.compare a a = Eq.
Proof. induction a as [|x a IH]; simpl; [done|]. by rewrite N.compare_refl. Qed.

Lemma compare_lt_trans (a b c : str) :
  Str.compare a b = Lt → Str.compare b c = Lt → Str.compare a c = Lt.
Proof.
  revert b c. induction a as [|x a IH]; intros [|y b] [|z c]; simpl; try done.
  destruct (x ?= y)%N eqn:E1; try done;
    destruct (y ?= z)%N eqn:E2; try done.
  - apply N.compare_eq in E1, E2. subst. rewrite N.compare_refl. apply IH.
  - apply N.compare_eq in E1. subst. by rewrite E2.
  - apply N.compare_eq in E2. subst. by rewrite E1.
  - rewrite N.compare_lt_iff in E1, E2.
    assert ((x ?= z)%N = Lt) as -> by (apply N.compare_lt_iff; lia). done.
Qed.

Lemma le_trans (a b c : str) :
  Str.le a b = true → Str.le b c = true → Str.le a c = true.
Proof.
  unfold Str.le.
  destruct (Str.compare a b) eqn:E1; try done;
    destruct (Str.compare b c) eqn:E2; try done; intros _ _.
  - apply compare_eq in E1, E2. subst. by rewrite compare_refl.
  - apply compare_eq in E1. subst. by rewrite E2.
  - apply compare_eq in E2. subst. by rewrite E1.
  - by rewrite (compare_lt_trans _ _ _ E1 E2).
Qed.

(** Trimming leaves nothing exactly when every code point is whitespace. *)
Lemma lstrip_nil (s : str) :
  Str.lstrip s = [] ↔ Forall (fun c => Str.is_space c = true) s.
Proof.
  induction s as [|c s IH]; simpl; [by split; [constructor|]|].
  destruct (Str.is_space c) eqn:E.
  - rewrite IH. split; [by constructor|by inversion 1].
  - split; [done|]. inversion 1; congruence.
Qed.

Lemma lstrip_head (s t : str) (c : N) :
  Str.lstrip s = c :: t → Str.is_space c = false.
Proof.
  induction s as [|c' s IH]; simpl; [done|].
  destruct (Str.is_space c') eqn:E; [done|]. by intros [= <- _].
Qed.

Lemma strip_nil (s : str) :
  Str.strip s = [] ↔ Forall (fun c => Str.is_space c = true) s.
Proof.
  unfold Str.strip, Str.rstrip. split.
  - intros Hs. apply (f_equal reverse) in Hs.
    rewrite reverse_involutive, reverse_nil in Hs.
    apply lstrip_nil in Hs. rewrite Forall_reverse in Hs.
    destruct (Str.lstrip s) as [|c t] eqn:E; [by apply lstrip_nil|].
    apply lstrip_head in E. apply Forall_cons in Hs as [Hc _].
    simpl in Hc. congruence.
  - intros Hs. apply lstrip_nil in Hs. by rewrite Hs.
Qed.

End StrFacts.

Global Instance str_laws : PyOrdLaws str.
Proof.
  split; simpl.
  - intros a b. unfold Str.gt, Str.lt.
    rewrite (StrFacts.compare_antisym a b). by destruct (Str.compare a b).
  - intros a b. unfold Str.le, Str.gt. by destruct (Str.compare a b).
  - intros a b. unfold Str.lt.
    rewrite (StrFacts.compare_antisym a b). by destruct (Str.compare a b).
  - apply StrFacts.le_trans.
Qed.

Global Instance str_total : PyOrdTotal str.
Proof.
  split; simpl. intros a b. unfold Str.le.
  rewrite (StrFacts.compare_antisym a b).
  destruct (Str.compare a b) eqn:E; try done.
  intros _ _. by apply StrFacts.compare_eq.
Qed.

Global Instance tagged_laws {A} `{PyOrdLaws A} : PyOrdLaws (tagged A).
Proof.
  split; simpl; intros.
  - apply py_gt_lt.
  - apply py_le_gt.
  - by apply py_lt_asym.
  - by eapply py_le_trans.
Qed.

(** A list is strongly sorted exactly when every earlier item is related to
    every later one. *)
Lemma StronglySorted_pairs {X} (R : relation X) (l : list X) :
  StronglySorted R l ↔
  ∀ i j x y, (i < j)%nat → l !! i = Some x → l !! j = Some y → R x y.
Proof.
  split.
  - intros Hs. induction Hs as [|a l Hs IH Hall]; [done|].
    intros [|i] [|j] x y Hij; try lia; simpl.
    + intros [= ->] Hy. rewrite Forall_forall in Hall.
      apply Hall. by eapply list_elem_of_lookup_2.
    + apply IH. lia.
  - induction l as [|a l IH]; intros Ho; constructor.
    + apply IH. intros i j x y Hij. apply (Ho (S i) (S j)). lia.
    + apply Forall_forall. intros y [j Hj]%list_elem_of_lookup.
      apply (Ho 0%nat (S j)); [lia|done..].
Qed.

Lemma StronglySorted_filter {X} (R : relation X) (P : X → Prop)
    `{!∀ x, Decision (P x)} (l : list X) :
  StronglySorted R l → StronglySorted R (filter P l).
Proof.
  induction 1 as [|a l Hs IH Hall]; [constructor|].
  rewrite filter_cons. case_decide; [|done].
  constructor; [done|].
  rewrite Forall_forall in Hall. apply Forall_forall.
  intros y [_ Hy]%list_elem_of_filter. by apply Hall.
Qed.

Section OrdFacts.
Context {A : Type} `{PyOrdLaws A}.

Lemma py_gt_le (x y : A) : py_gt x y = true → py_le y x = true.
Proof.
  rewrite py_le_gt, !py_gt_lt. intros ?%py_lt_asym. by apply negb_true_iff.
Qed.

Lemma py_not_gt_le (x y : A) : py_gt x y = false → py_le x y = true.
Proof. rewrite py_le_gt. by intros ->. Qed.

Lemma py_le_not_gt (x y : A) : py_le x y = true → py_gt x y = false.
Proof. rewrite py_le_gt. by intros ?%negb_true_iff. Qed.

Lemma py_lt_le (x y : A) : py_lt x y = true → py_le x y = true.
Proof. rewrite <-py_gt_lt. apply py_gt_le. Qed.

Lemma py_not_lt_le (x y : A) : py_lt x y = false → py_le y x = true.
Proof. rewrite <-py_gt_lt. apply py_not_gt_le. Qed.

Lemma py_le_refl (x : A) : py_le x x = true.
Proof.
  apply py_not_gt_le. rewrite py_gt_lt.
  destruct (py_lt x x) eqn:E; [|done]. apply py_lt_asym in E as E'. congruence.
Qed.

Lemma py_gt_irrefl (x : A) : py_gt x x = false.
Proof. apply py_le_not_gt, py_le_refl. Qed.

Global Instance py_le_rel_trans : Transitive (py_le_rel (A := A)).
Proof. intros x y z. apply py_le_trans. Qed.

Global Instance py_le_rel_refl : Reflexive (py_le_rel (A := A)).
Proof. intros x. apply py_le_refl. Qed.

Global Instance py_le_rel_antisym `{!PyOrdTotal A} :
  AntiSymm (=) (py_le_rel (A := A)).
Proof. intros x y. apply py_le_antisym. Qed.

Lemma ordered_StronglySorted (l : list A) :
  ordered l ↔ StronglySorted py_le_rel l.
Proof. symmetry. apply StronglySorted_pairs. Qed.

Lemma StronglySorted_lookup (l : list A) (i j : nat) (x y : A) :
  StronglySorted py_le_rel l → (i < j)%nat →
  l !! i = Some x → l !! j = Some y → py_le x y = true.
Proof.
  intros Hs Hij Hx Hy.
  exact (proj1 (StronglySorted_pairs _ _) Hs i j x y Hij Hx Hy).
Qed.

Lemma ordered_non_decreasing (l : list A) : ordered l → non_decreasing l.
Proof. intros Ho i x y. apply Ho. lia. Qed.

End OrdFacts.

(** ** Reasoning about a run on one list object *)

Section Runs.
Context {A : Type}.
Implicit Types (l : list A) (t : list (event A)) (σ : state A) (arr : loc).

Lemma runs_ret {X} (x : X) arr l : runs (ret x) arr l x l [].
Proof.
  intros [h t] Hl; simpl in *. unfold ret.
  by rewrite insert_id, app_nil_r.
Qed.

Lemma runs_bind {X Y} (m : M A X) (f : X → M A Y) arr l x l1 t1 y l2 t2 :
  runs m arr l x l1 t1 → runs (f x) arr l1 y l2 t2 →
  runs (bind m f) arr l y l2 (t1 ++ t2).
Proof.
  intros Hm Hf σ Hl. unfold bind. rewrite (Hm σ Hl).
  rewrite (Hf _ (lookup_insert_eq _ _ _)); simpl.
  by rewrite insert_insert_eq, app_assoc.
Qed.

Lemma py_index_nat (n i : nat) : (i < n)%nat → py_index n (Z.of_nat i) = Some i.
Proof.
  intros. unfold py_index. rewrite bool_decide_eq_true_2 by lia.
  by rewrite Nat2Z.id.
Qed.

Lemma runs_len arr l : runs (len arr) arr l (Z.of_nat (length l)) l [].
Proof.
  intros [h t] Hl; simpl in *. unfold len; simpl. rewrite Hl.
  by rewrite insert_id, app_nil_r.
Qed.

Lemma runs_getitem arr l (i : nat) v :
  l !! i = Some v →
  runs (getitem arr (Z.of_nat i)) arr l v l [GetItem arr (Z.of_nat i) v].
Proof.
  intros Hi [h t] Hl; simpl in *. unfold getitem; simpl. rewrite Hl.
  rewrite py_index_nat by (by eapply lookup_lt_Some); simpl.
  by rewrite Hi, insert_id.
Qed.

Lemma runs_setitem arr l (i : nat) v :
  (i < length l)%nat →
  runs (setitem arr (Z.of_nat i) v) arr l () (<[i := v]> l)
       [SetItem arr (Z.of_nat i) v].
Proof.
  intros Hi [h t] Hl; simpl in *. unfold setitem; simpl. rewrite Hl.
  by rewrite py_index_nat.
Qed.

(** The loop rule: an invariant [I k s l t] over the number [k] of completed
    iterations, the local variables, the list and the accesses so far. *)
Lemma runs_for_in {X V} (I : nat → V → list A → list (event A) → Prop)
    arr (xs : list X) (body : X → V → M A V) s l :
  I 0%nat s l [] →
  (∀ k x s l t, xs !! k = Some x → I k s l t →
     ∃ s' l' t', runs (body x s) arr l s' l' t' ∧ I (S k) s' l' (t ++ t')) →
  ∃ s' l' t, runs (for_in xs body s) arr l s' l' t ∧ I (length xs) s' l' t.
Proof.
  revert I s l. induction xs as [|x xs IH]; intros I s l H0 Hstep; simpl.
  - exists s, l, []. split; [apply runs_ret|done].
  - destruct (Hstep 0%nat x s l [] eq_refl H0) as (s1 & l1 & t1 & Hrun & H1).
    destruct (IH (fun k s l t => I (S k) s l (t1 ++ t)) s1 l1) as
      (s2 & l2 & t2 & Hrun2 & H2).
    + by rewrite app_nil_r.
    + intros k y s' l' t Hk HI.
      destruct (Hstep (S k) y s' l' (t1 ++ t) Hk HI) as (s3 & l3 & t3 & ? & ?).
      exists s3, l3, t3. by rewrite app_assoc.
    + exists s2, l2, (t1 ++ t2). split; [by eapply runs_bind|done].
Qed.

Lemma range_lookup (lo hi : Z) (k : nat) (x : Z) :
  range lo hi !! k = Some x → x = lo + Z.of_nat k ∧ Z.of_nat k < hi - lo.
Proof. unfold range. by rewrite lookup_seqZ. Qed.

Lemma range_length (lo hi : Z) : length (range lo hi) = Z.to_nat (hi - lo).
Proof. apply length_seqZ. Qed.

(** A sorting function that copies, runs [body] on the copy and returns it:
    the result is a new object, and the store is otherwise unchanged. *)
Lemma runs_on_copy (body : loc → Z → M A unit) (data : loc) σ l
    (P : loc → list A → list (event A) → Prop) :
  heap σ !! data = Some l →
  (∀ arr, ∃ l' t,
     runs (body arr (Z.of_nat (length l))) arr l () l' t ∧ P arr l' t) →
  ∃ arr l' t,
    bind (list_copy data)
      (fun arr => bind (len arr)
         (fun n => bind (body arr n) (fun _ => ret arr))) σ
      = Some (arr, State (<[arr := l']> (heap σ)) (trace σ ++ t))
    ∧ heap σ !! arr = None ∧ P arr l' t.
Proof.
  intros Hd Hbody. set (arr := fresh (dom (heap σ))).
  destruct (Hbody arr) as (l' & t & Hrun & HP).
  exists arr, l', t. split_and!; [|by apply not_elem_of_dom, is_fresh|done].
  unfold bind at 1, list_copy. rewrite Hd. fold arr.
  pose proof (runs_bind (len arr)
    (fun n => bind (body arr n) (fun _ => ret arr)) _ _ _ _ _ _ _ _
    (runs_len arr l)
    (runs_bind _ (fun _ => ret arr) _ _ _ _ _ _ _ _ Hrun (runs_ret arr arr l')))
    as Hr.
  rewrite (Hr (State (<[arr:=l]> (heap σ)) (trace σ))) by apply lookup_insert_eq.
  simpl. by rewrite insert_insert_eq, app_nil_r.
Qed.

End Runs.

(** The runs of a sequence of item accesses, one access at a time. *)
Ltac run_getitem :=
  eapply (runs_bind _ _ _ _ _ _ [_]); [by apply runs_getitem|].
Ltac run_setitem :=
  apply runs_setitem; rewrite ?length_insert; by eapply lookup_lt_Some.

(** ** Exchanging two items *)

Section Swap.
Context {A : Type}.
Implicit Types (l : list A).

Lemma lookup_swap l a b x y p :
  l !! a = Some x → l !! b = Some y →
  <[b := x]> (<[a := y]> l) !! p = l !! swap_idx a b p.
Proof.
  intros Ha Hb. unfold swap_idx.
  apply lookup_lt_Some in Ha as Hla. apply lookup_lt_Some in Hb as Hlb.
  repeat case_decide; subst.
  - rewrite list_lookup_insert_eq by (by rewrite length_insert). done.
  - rewrite list_lookup_insert_ne by done.
    rewrite list_lookup_insert_eq by done. done.
  - by rewrite !list_lookup_insert_ne by done.
Qed.

Lemma swap_idx_inj a b : Inj (=) (=) (swap_idx a b).
Proof. intros i j. unfold swap_idx. repeat case_decide; congruence. Qed.

Lemma swap_perm l a b x y :
  l !! a = Some x → l !! b = Some y → <[b := x]> (<[a := y]> l) ≡ₚ l.
Proof.
  intros Ha Hb. apply Permutation_inj. split.
  - by rewrite !length_insert.
  - exists (swap_idx a b). split; [apply swap_idx_inj|].
    intros i. by apply lookup_swap.
Qed.

End Swap.

(** ** Bubble sort *)

Section Bubble.
Context {A : Type} `{PyOrdLaws A}.
Implicit Types (l : list A) (arr : loc).

Lemma bubble_step_runs arr l (i : Z) (j : nat) x y :
  l !! j = Some x → l !! S j = Some y →
  runs (bubble_step arr (Z.of_nat j)) arr l ()
       (if py_gt x y then <[S j := x]> (<[j := y]> l) else l)
       (step_events arr (Step i (Z.of_nat j) x y (py_gt x y))).
Proof.
  intros Hx Hy. unfold bubble_step, step_events; simpl.
  replace (Z.of_nat j + 1) with (Z.of_nat (S j)) by lia.
  do 2 run_getitem.
  destruct (py_gt x y); [|apply runs_ret].
  do 2 run_getitem.
  eapply (runs_bind _ _ _ _ _ _ [_]); run_setitem.
Qed.

Lemma bubble_step_inv l0 l (b k : nat) x y :
  l !! k = Some x → l !! S k = Some y → (S k < b)%nat →
  l ≡ₚ l0 → settled_from b l → max_at k l →
  let l' := if py_gt x y then <[S k := x]> (<[k := y]> l) else l in
  l' ≡ₚ l0 ∧ settled_from b l' ∧ max_at (S k) l'.
Proof.
  intros Hx Hy Hk Hperm Hset Hmax. destruct (py_gt x y) eqn:Hgt; simpl.
  - split_and!.
    + by rewrite swap_perm.
    + intros p q a c Hpq Hq. rewrite !(lookup_swap _ _ _ _ _ _ Hx Hy).
      unfold swap_idx. repeat case_decide; subst; try lia;
        intros Ha Hc; refine (Hset _ _ _ _ _ _ Ha Hc); lia.
    + intros p a c Hp. rewrite !(lookup_swap _ _ _ _ _ _ Hx Hy).
      unfold swap_idx. repeat case_decide; subst; try lia.
      * intros ? ?; simplify_eq. by apply py_gt_le.
      * intros Ha Hc; simplify_eq. refine (Hmax _ _ _ _ Ha Hx); lia.
  - split_and!; [done..|].
    intros p a c Hp Ha Hc. simplify_eq.
    destruct (decide (p = k)) as [->|]; simplify_eq.
    + by apply py_not_gt_le.
    + eapply py_le_trans; [|by apply py_not_gt_le].
      refine (Hmax _ _ _ _ Ha Hx); lia.
Qed.

Lemma bubble_pass_runs arr l0 l (i : nat) :
  (i < length l0)%nat → l ≡ₚ l0 → settled_from (length l0 - i) l →
  ∃ l' t,
    runs (for_in (range 0 (Z.of_nat (length l0) - Z.of_nat i - 1))
            (fun j _ => bubble_step arr j) ()) arr l () l' t
    ∧ l' ≡ₚ l0 ∧ settled_from (length l0 - S i) l'.
Proof.
  intros Hi Hperm Hset.
  destruct (runs_for_in
    (fun k (_ : ()) l' _ =>
       l' ≡ₚ l0 ∧ settled_from (length l0 - i) l' ∧ max_at k l')
    arr (range 0 (Z.of_nat (length l0) - Z.of_nat i - 1))
    (fun j _ => bubble_step arr j) () l) as ([] & l' & t & Hrun & Hp & Hs & Hm).
  - split_and!; [done..|]. intros p ?? Hp. lia.
  - intros k j [] l1 t1 [-> Hk]%range_lookup (Hp1 & Hs1 & Hm1).
    assert (length l1 = length l0) as Hlen by (by apply Permutation_length).
    destruct (lookup_lt_is_Some_2 l1 k) as [x Hx]; [lia|].
    destruct (lookup_lt_is_Some_2 l1 (S k)) as [y Hy]; [lia|].
    eexists (), _, _. split.
    + rewrite Z.add_0_l. by apply (bubble_step_runs arr l1 0 k x y).
    + eapply bubble_step_inv; try eassumption. lia.
  - exists l', t. split_and!; [done..|].
    rewrite range_length in Hm.
    intros p q x y Hpq Hq Hx Hy.
    destruct (decide (length l0 - i ≤ q)%nat); [by eapply Hs|].
    replace q with (Z.to_nat (Z.of_nat (length l0) - Z.of_nat i - 1 - 0)) in *
      by lia.
    by eapply Hm.
Qed.

Lemma bubble_loops_runs arr l0 :
  ∃ l' t,
    runs (for_in (range 0 (Z.of_nat (length l0))) (fun i _ =>
            for_in (range 0 (Z.of_nat (length l0) - i - 1))
              (fun j _ => bubble_step arr j) ()) ()) arr l0 () l' t
    ∧ l' ≡ₚ l0 ∧ ordered l'.
Proof.
  destruct (runs_for_in
    (fun k (_ : ()) l' _ => l' ≡ₚ l0 ∧ settled_from (length l0 - k) l')
    arr (range 0 (Z.of_nat (length l0)))
    (fun i _ => for_in (range 0 (Z.of_nat (length l0) - i - 1))
                  (fun j _ => bubble_step arr j) ()) () l0)
    as ([] & l' & t & Hrun & Hp & Hs).
  - split; [done|]. intros p q x y Hpq Hq _ Hy%lookup_lt_Some. lia.
  - intros k i [] l1 t1 [-> Hk]%range_lookup (Hp1 & Hs1).
    rewrite Z.add_0_l.
    destruct (bubble_pass_runs arr l0 l1 k) as (l2 & t2 & ? & ? & ?);
      [lia|done..|].
    by exists (), l2, t2.
  - exists l', t. split_and!; [done..|].
    rewrite range_length in Hs.
    intros p q x y Hpq Hx Hy. eapply Hs; try eassumption. lia.
Qed.

End Bubble.

(** ** Selection sort *)

Section Selection.
Context {A : Type} `{PyOrdLaws A}.
Implicit Types (l : list A) (arr : loc).

Lemma selection_step_runs arr l (j m : nat) x y :
  l !! j = Some x → l !! m = Some y →
  runs (selection_step arr (Z.of_nat j) (Z.of_nat m)) arr l
       (if py_lt x y then Z.of_nat j else Z.of_nat m) l
       [GetItem arr (Z.of_nat j) x; GetItem arr (Z.of_nat m) y].
Proof.
  intros Hx Hy. unfold selection_step.
  run_getitem.
  eapply (runs_bind _ _ _ _ _ _ [_] _ _ []); [by apply runs_getitem|].
  destruct (py_lt x y); apply runs_ret.
Qed.

Lemma swap_items_runs arr l (i m : nat) x y :
  l !! i = Some x → l !! m = Some y →
  runs (swap_items arr (Z.of_nat i) (Z.of_nat m)) arr l ()
       (<[m := x]> (<[i := y]> l))
       [GetItem arr (Z.of_nat m) y; GetItem arr (Z.of_nat i) x;
        SetItem arr (Z.of_nat i) y; SetItem arr (Z.of_nat m) x].
Proof.
  intros Hx Hy. unfold swap_items.
  do 2 run_getitem.
  eapply (runs_bind _ _ _ _ _ _ [_]); run_setitem.
Qed.

(** The inner loop finds a position of a least item of [l[i:]]. *)
Lemma selection_scan_runs arr l (i : nat) :
  (i < length l)%nat →
  ∃ (m : nat) t,
    runs (for_in (range (Z.of_nat i + 1) (Z.of_nat (length l)))
            (selection_step arr) (Z.of_nat i)) arr l (Z.of_nat m) l t
    ∧ (i ≤ m < length l)%nat ∧ min_at i (length l) m l.
Proof.
  intros Hi.
  destruct (runs_for_in
    (fun k (mz : Z) l' _ =>
       l' = l ∧ ∃ m : nat, mz = Z.of_nat m ∧ (i ≤ m < length l)%nat
                           ∧ min_at i (S i + k) m l)
    arr (range (Z.of_nat i + 1) (Z.of_nat (length l)))
    (selection_step arr) (Z.of_nat i) l)
    as (mz & l' & t & Hrun & -> & m & -> & Hm & Hmin).
  - split; [done|]. exists i. split_and!; [done|lia..|].
    intros q y z Hq Hy Hz. replace q with i in * by lia. simplify_eq.
    apply py_le_refl.
  - intros k j mz l1 t1 [-> Hk]%range_lookup (-> & m & -> & Hm & Hmin).
    destruct (lookup_lt_is_Some_2 l (S i + k)) as [x Hx]; [lia|].
    destruct (lookup_lt_is_Some_2 l m) as [y Hy]; [lia|].
    replace (Z.of_nat i + 1 + Z.of_nat k) with (Z.of_nat (S i + k)) by lia.
    eexists _, l, _. split; [by apply selection_step_runs|].
    split; [done|]. destruct (py_lt x y) eqn:Hlt.
    + exists (S i + k)%nat. split_and!; [done|lia..|].
      intros q a c Hq Ha Hc. simplify_eq.
      destruct (decide (q = S i + k)%nat) as [->|]; [simplify_eq; apply py_le_refl|].
      eapply py_le_trans; [by apply py_lt_le|].
      eapply Hmin; [|done..]. lia.
    + exists m. split_and!; [done|lia..|].
      intros q a c Hq Ha Hc. simplify_eq.
      destruct (decide (q = S i + k)%nat) as [->|].
      * simplify_eq. by apply py_not_lt_le.
      * eapply Hmin; [|done..]. lia.
  - exists m, t. split_and!; [done|lia..|].
    rewrite range_length in Hmin.
    intros q y z Hq. apply Hmin. lia.
Qed.

Lemma selection_swap_inv l0 l (i m : nat) x y :
  l !! i = Some x → l !! m = Some y → (i ≤ m)%nat →
  l ≡ₚ l0 → settled_upto i l → min_at i (length l) m l →
  let l' := <[m := x]> (<[i := y]> l) in
  l' ≡ₚ l0 ∧ settled_upto (S i) l'.
Proof.
  intros Hx Hy Him Hperm Hset Hmin. split; [by rewrite swap_perm|].
  intros p q a c Hpq Hp. rewrite !(lookup_swap _ _ _ _ _ _ Hx Hy).
  intros Ha Hc.
  assert (swap_idx i m q < length l)%nat as Hq' by (by eapply lookup_lt_Some).
  revert Ha Hc Hq'. unfold swap_idx. repeat case_decide; subst; try lia;
    intros Ha Hc Hq'; try (assert (m = i) as -> by lia);
    first [ refine (Hmin _ _ _ _ Ha Hc); lia
          | refine (Hset _ _ _ _ _ _ Ha Hc); lia ].
Qed.

Lemma selection_loops_runs arr l0 :
  ∃ l' t,
    runs (for_in (range 0 (Z.of_nat (length l0))) (fun i _ =>
            bind (for_in (range (i + 1) (Z.of_nat (length l0)))
                    (selection_step arr) i)
                 (fun min_idx => swap_items arr i min_idx)) ()) arr l0 () l' t
    ∧ l' ≡ₚ l0 ∧ ordered l'.
Proof.
  destruct (runs_for_in
    (fun k (_ : ()) l' _ => l' ≡ₚ l0 ∧ settled_upto k l')
    arr (range 0 (Z.of_nat (length l0)))
    (fun i _ => bind (for_in (range (i + 1) (Z.of_nat (length l0)))
                        (selection_step arr) i)
                     (fun min_idx => swap_items arr i min_idx)) () l0)
    as ([] & l' & t & Hrun & Hp & Hs).
  - split; [done|]. intros p q x y Hpq Hp. lia.
  - intros k i [] l1 t1 [-> Hk]%range_lookup (Hp1 & Hs1).
    assert (length l1 = length l0) as Hlen by (by apply Permutation_length).
    rewrite Z.add_0_l, <-Hlen.
    destruct (selection_scan_runs arr l1 k) as (m & t2 & Hscan & Hm & Hmin);
      [lia|].
    destruct (lookup_lt_is_Some_2 l1 k) as [x Hx]; [lia|].
    destruct (lookup_lt_is_Some_2 l1 m) as [y Hy]; [lia|].
    eexists (), _, _. split.
    + eapply runs_bind; [exact Hscan|]. by apply swap_items_runs.
    + eapply selection_swap_inv; try eassumption. lia.
  - exists l', t. split_and!; [done..|].
    rewrite range_length in Hs.
    intros p q x y Hpq Hx Hy. refine (Hs _ _ _ _ Hpq _ Hx Hy).
    apply lookup_lt_Some in Hy. apply Permutation_length in Hp. lia.
Qed.

End Selection.

(** ** Insertion sort *)

Section Insertion.
Context {A : Type} `{PyOrdLaws A}.
Implicit Types (l pre rest : list A) (arr : loc) (key : A).

(** The while loop, unfolded once. *)
Lemma shift_while_eq arr key (j : Z) (σ : state A) :
  shift_while arr key j σ =
  if decide (0 ≤ j) then
    match getitem arr j σ with
    | None => None
    | Some (x, σ1) =>
        if py_gt x key then
          match bind (getitem arr j) (fun v => setitem arr (j + 1) v) σ1 with
          | None => None
          | Some (_, σ2) => shift_while arr key (j - 1) σ2
          end
        else Some (j, σ1)
    end
  else Some (j, σ).
Proof.
  rewrite shift_while_equation_1.
  destruct (decide (0 ≤ j)); simpl; [|done].
  destruct (getitem arr j σ) as [[x σ1]|]; simpl; [|done].
  destruct (py_gt x key); simpl; [|done].
  by destruct (bind _ _ σ1) as [[[] σ2]|].
Qed.

Lemma shift_shape pre rest (k : nat) x y :
  pre !! k = Some y →
  <[S k := y]> (take (S k) pre ++ x :: drop (S k) pre ++ rest)
  = take k pre ++ y :: drop k pre ++ rest.
Proof.
  intros Hy. apply lookup_lt_Some in Hy as Hk.
  rewrite insert_app_r_alt by (rewrite length_take; lia).
  rewrite length_take_le, Nat.sub_diag by lia. simpl.
  rewrite (take_S_r _ _ _ Hy), <-app_assoc. simpl.
  by rewrite (drop_S _ _ _ Hy).
Qed.

(** The while loop moves the gap left, past the items greater than [key]. *)
Lemma shift_while_runs arr key pre rest (k : nat) x :
  (k ≤ length pre)%nat →
  Forall (fun y => py_gt y key = true) (drop k pre) →
  ∃ (k' : nat) x' t,
    runs (shift_while arr key (Z.of_nat k - 1)) arr
         (take k pre ++ x :: drop k pre ++ rest) (Z.of_nat k' - 1)
         (take k' pre ++ x' :: drop k' pre ++ rest) t
    ∧ (k' ≤ k)%nat
    ∧ Forall (fun y => py_gt y key = true) (drop k' pre)
    ∧ (k' = 0%nat ∨ ∃ y, pre !! (k' - 1)%nat = Some y ∧ py_gt y key = false).
Proof.
  revert x. induction k as [|k IH]; intros x Hk Hgt.
  - exists 0%nat, x, []. split_and!; [|done..|by left].
    intros [h t] Hl. rewrite shift_while_eq, decide_False by lia. simpl in *.
    by rewrite insert_id, app_nil_r.
  - destruct (lookup_lt_is_Some_2 pre k) as [y Hy]; [lia|].
    assert ((take (S k) pre ++ x :: drop (S k) pre ++ rest) !! k = Some y)
      as Hget.
    { rewrite lookup_app_l by (rewrite length_take; lia).
      by rewrite lookup_take_lt by lia. }
    destruct (py_gt y key) eqn:Hy_gt.
    + destruct (IH y) as (k' & x' & t' & Hrun & Hk' & Hgt' & Hstop); [lia| |].
      { rewrite (drop_S _ _ _ Hy). by constructor. }
      exists k', x', ([GetItem arr (Z.of_nat k) y] ++
                     ([GetItem arr (Z.of_nat k) y] ++
                      [SetItem arr (Z.of_nat (S k)) y]) ++ t').
      split_and!; [|lia|done..].
      intros σ Hl. rewrite shift_while_eq, decide_True by lia.
      replace (Z.of_nat (S k) - 1) with (Z.of_nat k) by lia.
      rewrite (runs_getitem arr _ k y Hget σ Hl), Hy_gt.
      replace (Z.of_nat k + 1) with (Z.of_nat (S k)) by lia.
      erewrite (runs_bind (getitem arr (Z.of_nat k))
                  (fun v => setitem arr (Z.of_nat (S k)) v) arr);
        [| by apply runs_getitem | apply runs_setitem
         | apply lookup_insert_eq].
      2:{ rewrite length_app, length_take_le by lia. simpl. lia. }
      rewrite (shift_shape _ _ _ _ _ Hy).
      replace (Z.of_nat (S k) - 1 - 1) with (Z.of_nat k - 1) by lia.
      rewrite (Hrun _ (lookup_insert_eq _ _ _)). simpl.
      by rewrite !insert_insert_eq, <-!app_assoc.
    + exists (S k), x, [GetItem arr (Z.of_nat k) y].
      split_and!; [|done..|].
      * intros σ Hl. rewrite shift_while_eq, decide_True by lia.
        replace (Z.of_nat (S k) - 1) with (Z.of_nat k) by lia.
        by rewrite (runs_getitem arr _ k y Hget σ Hl), Hy_gt.
      * right. exists y. by rewrite Nat.sub_1_r.
Qed.

(** One iteration of the outer loop inserts the item after the prefix. *)
Lemma insertion_step_runs arr pre key rest :
  ∃ (k : nat) t,
    runs (insertion_step arr (Z.of_nat (length pre))) arr (pre ++ key :: rest)
         () (take k pre ++ key :: drop k pre ++ rest) t
    ∧ (k ≤ length pre)%nat
    ∧ Forall (fun y => py_gt y key = true) (drop k pre)
    ∧ (k = 0%nat ∨ ∃ y, pre !! (k - 1)%nat = Some y ∧ py_gt y key = false).
Proof.
  destruct (shift_while_runs arr key pre rest (length pre) key)
    as (k & x & t & Hrun & Hk & Hgt & Hstop); [done|by rewrite drop_all|].
  rewrite take_ge, drop_all in Hrun by done. simpl in Hrun.
  eexists k, _. split_and!; [|done..].
  unfold insertion_step.
  eapply runs_bind; [apply runs_getitem|].
  { by rewrite lookup_app_r, Nat.sub_diag by done. }
  eapply runs_bind; [apply Hrun|].
  replace (Z.of_nat k - 1 + 1) with (Z.of_nat k) by lia.
  replace (take k pre ++ key :: drop k pre ++ rest)
    with (<[k := key]> (take k pre ++ x :: drop k pre ++ rest)).
  - apply runs_setitem. rewrite length_app, length_take. simpl. lia.
  - rewrite insert_app_r_alt by (rewrite length_take; lia).
    by rewrite length_take_le, Nat.sub_diag by lia.
Qed.

Lemma insert_perm pre key rest (k : nat) :
  take k pre ++ key :: drop k pre ++ rest ≡ₚ pre ++ key :: rest.
Proof.
  rewrite <-(take_drop k pre) at 3. rewrite <-app_assoc.
  apply Permutation_app_head. by rewrite <-!Permutation_middle.
Qed.

Lemma insert_sorted pre key (k : nat) :
  StronglySorted py_le_rel pre →
  Forall (fun y => py_gt y key = true) (drop k pre) →
  (k = 0%nat ∨ ∃ y, pre !! (k - 1)%nat = Some y ∧ py_gt y key = false) →
  StronglySorted py_le_rel (take k pre ++ key :: drop k pre).
Proof.
  intros Hs Hgt Hstop.
  rewrite <-(take_drop k pre) in Hs.
  apply StronglySorted_app in Hs as (Hcross & Hs1 & Hs2).
  apply StronglySorted_app. split_and!; [|done|].
  - intros x1 x2 Hx1 [->|Hx2]%elem_of_cons; [|by apply Hcross].
    apply elem_of_take in Hx1 as (p & Hp & Hpk).
    destruct Hstop as [->|(y & Hy & Hle%py_not_gt_le)]; [lia|].
    destruct (decide (p = k - 1)%nat) as [->|]; [by simplify_eq|].
    eapply py_le_trans; [|exact Hle].
    apply (StronglySorted_lookup (take k pre) p (k - 1)); [done|lia|..];
      by rewrite lookup_take_lt by lia.
  - constructor; [done|].
    eapply Forall_impl; [exact Hgt|]. intros y. apply py_gt_le.
Qed.

(** Stability of one insertion: the item only moves past items that are
    strictly greater, so no item equal to it is overtaken. *)
Lemma insert_equals pre key rest (k : nat) (v : A) :
  Forall (fun y => py_gt y key = true) (drop k pre) →
  equals_of v (take k pre ++ key :: drop k pre ++ rest)
  = equals_of v (pre ++ key :: rest).
Proof.
  intros Hgt. unfold equals_of.
  rewrite <-(take_drop k pre) at 3.
  rewrite !filter_app, !filter_cons, !filter_app, <-app_assoc.
  f_equal. case_decide as Hv; [|done].
  assert (filter (fun x => py_equiv v x = true) (drop k pre) = []) as ->; [|done].
  induction Hgt as [|y ys Hy _ IH]; [done|].
  rewrite filter_cons_False; [done|].
  unfold py_equiv in *. intros [_ Hyv]%andb_true_iff.
  apply andb_true_iff in Hv as [Hvk _].
  apply py_le_not_gt in Hyv as Hyv'.
  pose proof (py_le_trans _ _ _ Hyv Hvk) as Hle%py_le_not_gt. congruence.
Qed.

Lemma insertion_loops_runs arr l0 :
  ∃ l' t,
    runs (for_in (range 1 (Z.of_nat (length l0)))
            (fun i _ => insertion_step arr i) ()) arr l0 () l' t
    ∧ l' ≡ₚ l0 ∧ ordered l' ∧ ∀ v, equals_of v l' = equals_of v l0.
Proof.
  destruct (runs_for_in
    (fun k (_ : ()) l' _ =>
       l' ≡ₚ l0 ∧ StronglySorted py_le_rel (take (S k) l')
       ∧ ∀ v, equals_of v l' = equals_of v l0)
    arr (range 1 (Z.of_nat (length l0)))
    (fun i _ => insertion_step arr i) () l0)
    as ([] & l' & t & Hrun & Hp & Hs & Heq).
  - split_and!; [done| |done].
    destruct l0 as [|a [|b l0]]; simpl; repeat constructor.
  - intros k i [] l1 t1 [-> Hk]%range_lookup (Hp1 & Hs1 & Heq1).
    assert (length l1 = length l0) as Hlen by (by apply Permutation_length).
    destruct (lookup_lt_is_Some_2 l1 (S k)) as [key Hkey]; [lia|].
    pose proof (take_drop_middle _ _ _ Hkey) as Hsplit.
    set (pre := take (S k) l1) in *. set (rest := drop (S (S k)) l1) in *.
    assert (length pre = S k) as Hpre by (apply length_take_le; lia).
    destruct (insertion_step_runs arr pre key rest)
      as (k' & t' & Hrun' & Hk' & Hgt & Hstop).
    replace (1 + Z.of_nat k) with (Z.of_nat (length pre)) by lia.
    rewrite <-Hsplit.
    eexists (), _, t'. split; [exact Hrun'|]. split_and!.
    + by rewrite insert_perm, Hsplit.
    + replace (take k' pre ++ key :: drop k' pre ++ rest)
        with ((take k' pre ++ key :: drop k' pre) ++ rest)
        by (by rewrite <-app_assoc).
      rewrite take_app_length'.
      * by apply insert_sorted.
      * rewrite length_app, length_take_le by lia. simpl.
        rewrite length_drop. lia.
    + intros v. by rewrite insert_equals, Hsplit.
  - exists l', t. split_and!; [done..| |done].
    apply ordered_StronglySorted. rewrite range_length in Hs.
    rewrite take_ge in Hs; [done|].
    apply Permutation_length in Hp. lia.
Qed.

End Insertion.

(** ** The three sorting functions *)

Section SortSpecs.
Context {A : Type} `{PyOrdLaws A}.
Implicit Types (l : list A) (σ : state A) (data : loc).

(** What a call does to the store: it allocates one new object [arr], leaves
    the sorted list there, and changes nothing else. *)
Lemma bubble_sort_spec σ data l :
  heap σ !! data = Some l →
  ∃ arr l' t,
    bubble_sort data σ
      = Some (arr, State (<[arr := l']> (heap σ)) (trace σ ++ t))
    ∧ heap σ !! arr = None ∧ l' ≡ₚ l ∧ ordered l'.
Proof.
  intros Hd. unfold bubble_sort.
  apply (runs_on_copy
    (fun arr n => for_in (range 0 n) (fun i _ =>
       for_in (range 0 (n - i - 1)) (fun j _ => bubble_step arr j) ()) ())
    data σ l (fun _ l' _ => l' ≡ₚ l ∧ ordered l') Hd).
  intros arr. destruct (bubble_loops_runs arr l) as (l' & t & ? & ? & ?).
  by exists l', t.
Qed.

Lemma selection_sort_spec σ data l :
  heap σ !! data = Some l →
  ∃ arr l' t,
    selection_sort data σ
      = Some (arr, State (<[arr := l']> (heap σ)) (trace σ ++ t))
    ∧ heap σ !! arr = None ∧ l' ≡ₚ l ∧ ordered l'.
Proof.
  intros Hd. unfold selection_sort.
  apply (runs_on_copy
    (fun arr n => for_in (range 0 n) (fun i _ =>
       bind (for_in (range (i + 1) n) (selection_step arr) i)
            (fun min_idx => swap_items arr i min_idx)) ())
    data σ l (fun _ l' _ => l' ≡ₚ l ∧ ordered l') Hd).
  intros arr. destruct (selection_loops_runs arr l) as (l' & t & ? & ? & ?).
  by exists l', t.
Qed.

Lemma insertion_sort_spec σ data l :
  heap σ !! data = Some l →
  ∃ arr l' t,
    insertion_sort data σ
      = Some (arr, State (<[arr := l']> (heap σ)) (trace σ ++ t))
    ∧ heap σ !! arr = None
    ∧ l' ≡ₚ l ∧ ordered l' ∧ ∀ v, equals_of v l' = equals_of v l.
Proof.
  intros Hd. unfold insertion_sort.
  apply (runs_on_copy
    (fun arr n => for_in (range 1 n) (fun i _ => insertion_step arr i) ())
    data σ l
    (fun _ l' _ =>
       l' ≡ₚ l ∧ ordered l' ∧ ∀ v, equals_of v l' = equals_of v l)
    Hd).
  intros arr. destruct (insertion_loops_runs arr l) as (l' & t & ? & ? & ? & ?).
  by exists l', t.
Qed.

(** The returned list, read off the specifications above. *)
Lemma result_of_spec (m : M A loc) σ arr l' t :
  m σ = Some (arr, State (<[arr := l']> (heap σ)) (trace σ ++ t)) →
  result m σ = Some l'.
Proof. intros Hm. unfold result. rewrite Hm. simpl. apply lookup_insert_eq. Qed.

Lemma bubble_sort_result σ data l :
  heap σ !! data = Some l →
  ∃ r, result (bubble_sort data) σ = Some r ∧ r ≡ₚ l ∧ ordered r.
Proof.
  intros (arr & r & t & Hrun & _ & ? & ?)%bubble_sort_spec.
  exists r. eauto using result_of_spec.
Qed.

Lemma selection_sort_result σ data l :
  heap σ !! data = Some l →
  ∃ r, result (selection_sort data) σ = Some r ∧ r ≡ₚ l ∧ ordered r.
Proof.
  intros (arr & r & t & Hrun & _ & ? & ?)%selection_sort_spec.
  exists r. eauto using result_of_spec.
Qed.

Lemma insertion_sort_result σ data l :
  heap σ !! data = Some l →
  ∃ r, result (insertion_sort data) σ = Some r ∧ r ≡ₚ l ∧ ordered r
       ∧ ∀ v, equals_of v r = equals_of v l.
Proof.
  intros (arr & r & t & Hrun & _ & ? & ? & ?)%insertion_sort_spec.
  exists r. eauto using result_of_spec.
Qed.

(** A store after a call that allocated [arr]: every object that existed
    before is unchanged. *)
Lemma frame_after_alloc σ arr (l' : list A) (d : loc) (l : list A) :
  heap σ !! arr = None → heap σ !! d = Some l →
  arr ≠ d ∧ <[arr := l']> (heap σ) !! d = Some l.
Proof.
  intros Hnew Hd. assert (arr ≠ d) by congruence.
  by rewrite lookup_insert_ne.
Qed.

(** Two ordered lists with the same items are the same list, when the order
    is total. *)
Lemma ordered_unique `{!PyOrdTotal A} (l1 l2 : list A) :
  ordered l1 → ordered l2 → l1 ≡ₚ l2 → l1 = l2.
Proof.
  intros H1%ordered_StronglySorted H2%ordered_StronglySorted.
  by apply (StronglySorted_unique py_le_rel).
Qed.

End SortSpecs.

Section SortClaims.
Implicit Types (l : list str) (σ : state str) (data : loc).

(** C1: on every list of strings, each of bubble_sort, selection_sort and
    insertion_sort returns a permutation of its input in which every item is
    [<=] the next one, under the lexicographic comparison of strings. *)
Theorem sorts_return_sorted_permutation σ data l :
  heap σ !! data = Some l →
  (∃ r, result (bubble_sort data) σ = Some r ∧ r ≡ₚ l ∧ non_decreasing r)
  ∧ (∃ r, result (selection_sort data) σ = Some r ∧ r ≡ₚ l ∧ non_decreasing r)
  ∧ (∃ r, result (insertion_sort data) σ = Some r ∧ r ≡ₚ l ∧ non_decreasing r).
Proof.
  intros Hd. split_and!.
  - destruct (bubble_sort_result σ data l Hd) as (r & ? & ? & ?).
    exists r. eauto using ordered_non_decreasing.
  - destruct (selection_sort_result σ data l Hd) as (r & ? & ? & ?).
    exists r. eauto using ordered_non_decreasing.
  - destruct (insertion_sort_result σ data l Hd) as (r & ? & ? & ? & _).
    exists r. eauto using ordered_non_decreasing.
Qed.

Lemma sorts_return_sorted_permutation_witness :
  let σ := store_of (strs ["pear"; "fig"; "apple"; "fig"]) in
  let l := strs ["pear"; "fig"; "apple"; "fig"] in
  (∃ r, result (bubble_sort 1%positive) σ = Some r ∧ r ≡ₚ l ∧ non_decreasing r)
  ∧ (∃ r, result (selection_sort 1%positive) σ = Some r ∧ r ≡ₚ l
          ∧ non_decreasing r)
  ∧ (∃ r, result (insertion_sort 1%positive) σ = Some r ∧ r ≡ₚ l
          ∧ non_decreasing r).
Proof.
  intros σ l. apply (sorts_return_sorted_permutation σ 1%positive l).
  reflexivity.
Defined.

(** C8: no sorting function mutates its input.  After a call the object
    [data] holds the same list as before, the returned reference is a
    different, newly allocated object, and every other object of the store is
    unchanged. *)
Theorem sorts_leave_input_unchanged σ data l (sort : loc → M str loc) :
  sort ∈ [bubble_sort; selection_sort; insertion_sort] →
  heap σ !! data = Some l →
  ∃ arr σ', sort data σ = Some (arr, σ')
    ∧ heap σ' !! data = Some l
    ∧ arr ≠ data ∧ heap σ !! arr = None
    ∧ ∀ d, d ≠ arr → heap σ' !! d = heap σ !! d.
Proof.
  intros Hsort Hd.
  assert (∃ arr l' t,
    sort data σ = Some (arr, State (<[arr := l']> (heap σ)) (trace σ ++ t))
    ∧ heap σ !! arr = None) as (arr & l' & t & Hrun & Hnew).
  { repeat (apply elem_of_cons in Hsort as [->|Hsort]).
    - destruct (bubble_sort_spec σ data l Hd) as (arr & l' & t & ? & ? & _).
      by exists arr, l', t.
    - destruct (selection_sort_spec σ data l Hd) as (arr & l' & t & ? & ? & _).
      by exists arr, l', t.
    - destruct (insertion_sort_spec σ data l Hd) as (arr & l' & t & ? & ? & _).
      by exists arr, l', t.
    - by apply elem_of_nil in Hsort. }
  destruct (frame_after_alloc σ arr l' data l Hnew Hd) as [Hne Hsame].
  eexists arr, _. split; [exact Hrun|]. simpl. split_and!; [done..|].
  intros d Hdne. by rewrite lookup_insert_ne.
Qed.

Lemma sorts_leave_input_unchanged_witness :
  let l := strs ["pear"; "fig"; "apple"; "fig"] in
  ∃ arr σ', selection_sort 1%positive (store_of l) = Some (arr, σ')
    ∧ heap σ' !! 1%positive = Some l
    ∧ arr ≠ 1%positive ∧ heap (store_of l) !! arr = None
    ∧ ∀ d, d ≠ arr → heap σ' !! d = heap (store_of l) !! d.
Proof.
  intros l.
  apply (sorts_leave_input_unchanged (store_of l) 1%positive l selection_sort).
  - right. left.
  - reflexivity.
Defined.

(** C9: on every list of strings the three sorting functions return the same
    list; on ["b", "a", "a", "c"] each returns ["a", "a", "b", "c"]. *)
Theorem sorts_agree σ data l :
  heap σ !! data = Some l →
  (∃ r, result (bubble_sort data) σ = Some r
        ∧ result (selection_sort data) σ = Some r
        ∧ result (insertion_sort data) σ = Some r)
  ∧ result (bubble_sort 1%positive) (store_of (strs ["b"; "a"; "a"; "c"]))
      = Some (strs ["a"; "a"; "b"; "c"])
  ∧ result (selection_sort 1%positive) (store_of (strs ["b"; "a"; "a"; "c"]))
      = Some (strs ["a"; "a"; "b"; "c"])
  ∧ result (insertion_sort 1%positive) (store_of (strs ["b"; "a"; "a"; "c"]))
      = Some (strs ["a"; "a"; "b"; "c"]).
Proof.
  intros Hd. split; [|by vm_compute].
  destruct (bubble_sort_result σ data l Hd) as (rb & Hb & Hpb & Hob).
  destruct (selection_sort_result σ data l Hd) as (rs & Hs & Hps & Hos).
  destruct (insertion_sort_result σ data l Hd) as (ri & Hi & Hpi & Hoi & _).
  exists rb. split_and!; [done|..].
  - rewrite Hs. f_equal. apply ordered_unique; [done..|]. by rewrite Hps, Hpb.
  - rewrite Hi. f_equal. apply ordered_unique; [done..|]. by rewrite Hpi, Hpb.
Qed.

Lemma sorts_agree_witness :
  let σ := store_of (strs ["delta"; "alpha"; "charlie"; "alpha"; "bravo"]) in
  ∃ r, result (bubble_sort 1%positive) σ = Some r
       ∧ result (selection_sort 1%positive) σ = Some r
       ∧ result (insertion_sort 1%positive) σ = Some r.
Proof.
  intros σ.
  refine (proj1 (sorts_agree σ 1%positive
    (strs ["delta"; "alpha"; "charlie"; "alpha"; "bravo"]) _)).
  reflexivity.
Defined.

End SortClaims.

(** ** Stability of insertion sort *)

Section Stability.
Context {A : Type} `{PyOrdLaws A}.

Lemma tag_positions_lookup (l : list A) (i : nat) (x : tagged A) :
  tag_positions l !! i = Some x → l !! i = Some x.1 ∧ x.2 = i.
Proof.
  unfold tag_positions. rewrite list_lookup_imap.
  destruct (l !! i); simpl; [|done]. by intros [= <-].
Qed.

Lemma tag_positions_values (l : list A) : (tag_positions l).*1 = l.
Proof.
  unfold tag_positions. rewrite fmap_imap.
  rewrite (imap_ext _ (const id)); [by rewrite imap_const, list_fmap_id|done].
Qed.

Lemma tag_positions_sorted (l : list A) :
  StronglySorted (fun a b : tagged A => (a.2 < b.2)%nat) (tag_positions l).
Proof.
  apply StronglySorted_pairs. intros i j x y Hij.
  intros [_ ->]%tag_positions_lookup [_ ->]%tag_positions_lookup. done.
Qed.

(** If, for every value, the items with that value appear in the order they
    had in the input, then equal values keep their relative positions. *)
Lemma positions_kept_of_equals (l : list A) (r : list (tagged A)) :
  (∀ v, equals_of v r = equals_of v (tag_positions l)) → positions_kept r.
Proof.
  intros Heq p q x y Hpq Hx Hy Hxy.
  pose proof (StronglySorted_filter _ (fun z => py_equiv x z = true) _
                (tag_positions_sorted l)) as Hs.
  fold (equals_of x (tag_positions l)) in Hs. rewrite <-Heq in Hs.
  assert (py_equiv x x = true) as Hxx.
  { unfold py_equiv. by rewrite py_le_refl. }
  assert (py_equiv x y = true) as Hxy'.
  { unfold py_equiv. simpl. rewrite <-Hxy. by rewrite py_le_refl. }
  rewrite <-(take_drop_middle r p x Hx) in Hs.
  assert (drop (S p) r !! (q - S p)%nat = Some y) as Hy'.
  { rewrite lookup_drop. by replace (S p + (q - S p))%nat with q by lia. }
  rewrite <-(take_drop_middle _ _ _ Hy') in Hs.
  unfold equals_of in Hs.
  rewrite filter_app, filter_cons_True, filter_app, filter_cons_True in Hs
    by done.
  apply StronglySorted_app in Hs as (_ & _ & Hs).
  apply StronglySorted_cons in Hs as [Hall _].
  apply Forall_app in Hall as [_ Hall].
  by apply Forall_cons in Hall as [? _].
Qed.

Lemma ordered_values (r : list (tagged A)) : ordered r → ordered (r.*1).
Proof.
  intros Ho i j x y Hij. rewrite !list_lookup_fmap.
  intros (a & Ha & ->)%fmap_Some (b & Hb & ->)%fmap_Some.
  exact (Ho i j a b Hij Ha Hb).
Qed.

End Stability.

(** C2: insertion_sort is stable.  Run on the strings of [l], each carrying
    the position it has in [l] and compared by its value alone, it returns
    the list that the run on the plain strings returns, and in it two items
    of equal value stand in the order of their input positions. *)
Theorem insertion_sort_stable (σ : state (tagged str)) (data : loc)
    (l : list str) :
  heap σ !! data = Some (tag_positions l) →
  ∃ r, result (insertion_sort data) σ = Some r
       ∧ r ≡ₚ tag_positions l
       ∧ positions_kept r
       ∧ ∀ (σ' : state str) (data' : loc),
           heap σ' !! data' = Some l →
           result (insertion_sort data') σ' = Some (r.*1).
Proof.
  intros Hd.
  destruct (insertion_sort_result σ data _ Hd) as (r & Hr & Hp & Ho & Heq).
  exists r. split_and!; [done..|by eapply positions_kept_of_equals|].
  intros σ' data' Hd'.
  destruct (insertion_sort_result σ' data' l Hd')
    as (r' & Hr' & Hp' & Ho' & _).
  rewrite Hr'. f_equal. apply ordered_unique; [done|by apply ordered_values|].
  by rewrite Hp', Hp, tag_positions_values.
Qed.

Lemma insertion_sort_stable_witness :
  let l := strs ["b"; "a"; "c"; "a"; "b"; "a"] in
  ∃ r, result (insertion_sort 1%positive) (store_of (tag_positions l)) = Some r
       ∧ r ≡ₚ tag_positions l
       ∧ positions_kept r
       ∧ ∀ (σ' : state str) (data' : loc),
           heap σ' !! data' = Some l →
           result (insertion_sort data') σ' = Some (r.*1).
Proof.
  intros l.
  apply (insertion_sort_stable (store_of (tag_positions l)) 1%positive l).
  reflexivity.
Defined.

(** ** The loop structure of bubble sort *)

Section BubbleTrace.
Context {A : Type} `{PyOrd A}.
Implicit Types (l : list A) (arr : loc) (steps : list (step A)).

Lemma range_snoc (k : nat) :
  range 0 (Z.of_nat (S k)) = range 0 (Z.of_nat k) ++ [Z.of_nat k].
Proof. unfold range. rewrite !Z.sub_0_r. by rewrite seqZ_S, Z.add_0_l. Qed.

Lemma bind_range_snoc {X} (f : Z → list X) (k : nat) :
  range 0 (Z.of_nat (S k)) ≫= f = (range 0 (Z.of_nat k) ≫= f) ++ f (Z.of_nat k).
Proof. by rewrite range_snoc, bind_app, bind_singleton. Qed.

Lemma bind_pair {X Y} (f : X → Y) (xs : list X) : xs ≫= (fun x => [f x]) = f <$> xs.
Proof.
  induction xs as [|x xs IH]; [done|]. rewrite bind_cons, IH. done.
Qed.

(** One pass: [m] comparisons, at positions [0 .. m-1], in this order. *)
Lemma bubble_pass_trace arr l (i : Z) (m : nat) :
  (m < length l)%nat →
  ∃ l' steps,
    runs (for_in (range 0 (Z.of_nat m)) (fun j _ => bubble_step arr j) ())
         arr l () l' (steps ≫= step_events arr)
    ∧ length l' = length l
    ∧ (fun s => (pass s, pos s)) <$> steps
      = (fun j => (i, j)) <$> range 0 (Z.of_nat m)
    ∧ Forall follows_comparison steps.
Proof.
  intros Hm.
  destruct (runs_for_in
    (fun k (_ : ()) l' t =>
       length l' = length l ∧ ∃ steps,
         t = steps ≫= step_events arr
         ∧ (fun s => (pass s, pos s)) <$> steps
           = (fun j => (i, j)) <$> range 0 (Z.of_nat k)
         ∧ Forall follows_comparison steps)
    arr (range 0 (Z.of_nat m)) (fun j _ => bubble_step arr j) () l)
    as ([] & l' & t & Hrun & Hlen & steps & -> & Hsched & Hok).
  - split; [done|]. by exists [].
  - intros k j [] l1 t1 [-> Hk]%range_lookup (Hlen & steps & -> & Hsched & Hok).
    destruct (lookup_lt_is_Some_2 l1 k) as [x Hx]; [lia|].
    destruct (lookup_lt_is_Some_2 l1 (S k)) as [y Hy]; [lia|].
    rewrite Z.add_0_l.
    eexists (), _, _. split; [by apply (bubble_step_runs arr l1 i k x y)|].
    split.
    { destruct (py_gt x y); [by rewrite !length_insert|done]. }
    exists (steps ++ [Step i (Z.of_nat k) x y (py_gt x y)]). split_and!.
    + by rewrite bind_app, bind_singleton.
    + by rewrite range_snoc, !fmap_app, Hsched.
    + apply Forall_app. split; [done|]. by repeat constructor.
  - rewrite range_length, Z.sub_0_r, Nat2Z.id in Hsched.
    by exists l', steps.
Qed.

Lemma bubble_loops_trace arr l :
  ∃ l' steps,
    runs (for_in (range 0 (Z.of_nat (length l))) (fun i _ =>
            for_in (range 0 (Z.of_nat (length l) - i - 1))
              (fun j _ => bubble_step arr j) ()) ()) arr l () l'
         (steps ≫= step_events arr)
    ∧ (fun s => (pass s, pos s)) <$> steps
      = classic_schedule (Z.of_nat (length l))
    ∧ Forall follows_comparison steps.
Proof.
  set (n := Z.of_nat (length l)).
  destruct (runs_for_in
    (fun k (_ : ()) l' t =>
       length l' = length l ∧ ∃ steps,
         t = steps ≫= step_events arr
         ∧ (fun s => (pass s, pos s)) <$> steps
           = (range 0 (Z.of_nat k) ≫=
                fun i => range 0 (n - i - 1) ≫= fun j => [(i, j)])
         ∧ Forall follows_comparison steps)
    arr (range 0 n)
    (fun i _ => for_in (range 0 (n - i - 1))
                  (fun j _ => bubble_step arr j) ()) () l)
    as ([] & l' & t & Hrun & Hlen & steps & -> & Hsched & Hok).
  - split; [done|]. by exists [].
  - intros k i [] l1 t1 [-> Hk]%range_lookup (Hlen & steps & -> & Hsched & Hok).
    rewrite Z.add_0_l. subst n.
    replace (Z.of_nat (length l) - Z.of_nat k - 1)
      with (Z.of_nat (length l - k - 1)) by lia.
    destruct (bubble_pass_trace arr l1 (Z.of_nat k) (length l - k - 1))
      as (l2 & steps2 & Hrun2 & Hlen2 & Hsched2 & Hok2); [lia|].
    eexists (), _, _. split; [exact Hrun2|]. split; [congruence|].
    exists (steps ++ steps2). split_and!.
    + by rewrite bind_app.
    + rewrite fmap_app, Hsched, Hsched2, bind_range_snoc, bind_pair.
      do 3 f_equal. lia.
    + by apply Forall_app.
  - exists l', steps. split_and!; [done| |done].
    rewrite range_length, Z.sub_0_r in Hsched. unfold n in Hsched.
    by rewrite Nat2Z.id in Hsched.
Qed.

End BubbleTrace.

(** C3: bubble_sort has the classic loop structure.  On an input of length
    [n] it performs one comparison step for each pass [i = 0 .. n-1] and each
    position [j = 0 .. n-i-2], in this order and whatever the contents (no
    pass is skipped); a step reads the items at [j] and [j+1] and exchanges
    them exactly when the left one is strictly greater, so never when they
    are equal. *)
Theorem bubble_sort_loop_structure {A} `{PyOrdLaws A} (σ : state A)
    (data : loc) (l : list A) :
  heap σ !! data = Some l →
  ∃ arr σ' steps,
    bubble_sort data σ = Some (arr, σ')
    ∧ trace σ' = trace σ ++ (steps ≫= step_events arr)
    ∧ (fun s => (pass s, pos s)) <$> steps
      = classic_schedule (Z.of_nat (length l))
    ∧ Forall (fun s => swapped s = py_gt (left_item s) (right_item s)) steps
    ∧ Forall (fun s => left_item s = right_item s → swapped s = false) steps.
Proof.
  intros Hd.
  destruct (runs_on_copy
    (fun arr n => for_in (range 0 n) (fun i _ =>
       for_in (range 0 (n - i - 1)) (fun j _ => bubble_step arr j) ()) ())
    data σ l
    (fun arr _ t => ∃ steps,
       t = steps ≫= step_events arr
       ∧ (fun s => (pass s, pos s)) <$> steps
         = classic_schedule (Z.of_nat (length l))
       ∧ Forall follows_comparison steps) Hd)
    as (arr & l' & t & Hrun & _ & steps & -> & Hsched & Hok).
  - intros arr. destruct (bubble_loops_trace arr l) as (l' & steps & ? & ? & ?).
    exists l', (steps ≫= step_events arr). split; [done|]. by exists steps.
  - eexists arr, _, steps. split; [exact Hrun|]. simpl.
    split_and!; [done..|].
    eapply Forall_impl; [exact Hok|]. intros s Hs Heq.
    rewrite Hs, Heq. apply py_gt_irrefl.
Qed.

Lemma bubble_sort_loop_structure_witness :
  let l := strs ["c"; "a"; "b"; "a"] in
  ∃ arr σ' steps,
    bubble_sort 1%positive (store_of l) = Some (arr, σ')
    ∧ trace σ' = trace (store_of l) ++ (steps ≫= step_events arr)
    ∧ (fun s => (pass s, pos s)) <$> steps
      = classic_schedule (Z.of_nat (length l))
    ∧ Forall (fun s => swapped s = py_gt (left_item s) (right_item s)) steps
    ∧ Forall (fun s => left_item s = right_item s → swapped s = false) steps.
Proof.
  intros l. apply (bubble_sort_loop_structure (store_of l) 1%positive l).
  reflexivity.
Defined.

(** ** The container benchmark *)

Section DictFacts.
Context {K V : Type} `{EqDecision K}.
Implicit Types (d : dict K V) (k : K) (v : V).

Lemma dict_keys_set d k v :
  dict_keys (dict_set d k v)
  = if decide (k ∈ dict_keys d) then dict_keys d else dict_keys d ++ [k].
Proof.
  unfold dict_keys. induction d as [|[k' v'] d IH]; csimpl; [done|].
  destruct (decide (k' = k)) as [->|Hne]; csimpl.
  - rewrite decide_True by (by left). done.
  - rewrite IH. destruct (decide (k ∈ d.*1)) as [Hin|Hnin].
    + rewrite decide_True by (by right). done.
    + rewrite decide_False; [done|].
      intros [?|?]%elem_of_cons; congruence.
Qed.

Lemma dict_get_set d k v k' :
  dict_get (dict_set d k v) k' = if decide (k = k') then Some v else dict_get d k'.
Proof.
  induction d as [|[k0 v0] d IH]; simpl.
  - destruct (decide (k = k')); done.
  - destruct (decide (k0 = k)) as [->|Hne]; simpl.
    + destruct (decide (k = k')); done.
    + rewrite IH. destruct (decide (k0 = k')) as [->|]; [|done].
      by rewrite decide_False by done.
Qed.

(** Deleting the keys of a snapshot, front first, removes the entries front
    first: the guard [key in d] holds each time. *)
Lemma remove_keys_front d (n : nat) :
  Bench.for_each (take n (dict_keys d)) (fun key d =>
    if dict_contains d key then dict_del d key else Some d) d
  = Some (drop n d).
Proof.
  revert n. induction d as [|[k v] d IH]; intros [|n]; simpl; try done.
  unfold dict_contains. simpl.
  rewrite bool_decide_eq_true_2 by (by left).
  rewrite decide_True by done. simpl. apply IH.
Qed.

End DictFacts.

Section FirstOccurrences.
Context {X : Type} `{EqDecision X}.
Implicit Types (l : list X) (x : X).

Lemma elem_of_first_occurrences l x : x ∈ first_occurrences l ↔ x ∈ l.
Proof.
  induction l as [|a l IH]; simpl; [done|].
  rewrite !elem_of_cons, list_elem_of_filter, IH.
  destruct (decide (x = a)); tauto.
Qed.

Lemma NoDup_first_occurrences l : NoDup (first_occurrences l).
Proof.
  induction l as [|a l IH]; simpl; constructor.
  - rewrite list_elem_of_filter. by intros [? _].
  - by apply NoDup_filter.
Qed.

Lemma first_occurrences_snoc l x :
  first_occurrences (l ++ [x])
  = if decide (x ∈ l) then first_occurrences l else first_occurrences l ++ [x].
Proof.
  induction l as [|a l IH]; simpl; [done|]. rewrite IH.
  destruct (decide (x ∈ l)) as [Hin|Hnin].
  - by rewrite (decide_True (P := x ∈ a :: l)) by (by right).
  - destruct (decide (x = a)) as [->|Hne].
    + rewrite (decide_True (P := a ∈ a :: l)) by (by left).
      rewrite filter_app, filter_cons_False, filter_nil, app_nil_r
        by naive_solver.
      done.
    + rewrite (decide_False (P := x ∈ a :: l))
        by (intros [?|?]%elem_of_cons; congruence).
      by rewrite filter_app, filter_cons_True by done.
Qed.

Lemma length_first_occurrences l : (length (first_occurrences l) ≤ length l)%nat.
Proof.
  induction l as [|a l IH]; simpl; [done|].
  pose proof (length_filter (fun y => y ≠ a) (first_occurrences l)). lia.
Qed.

(** A repeated item makes the list of distinct items strictly shorter. *)
Lemma length_first_occurrences_dup l :
  ¬ NoDup l → (length (first_occurrences l) < length l)%nat.
Proof.
  induction l as [|a l IH]; intros Hdup; simpl.
  - destruct Hdup. constructor.
  - pose proof (length_filter (fun y => y ≠ a) (first_occurrences l)) as Hf.
    pose proof (length_first_occurrences l) as Hl.
    destruct (decide (a ∈ l)) as [Hin|Hnin].
    + apply elem_of_first_occurrences in Hin.
      apply list_elem_of_split in Hin as (l1 & l2 & Heq).
      rewrite Heq in *. rewrite filter_app, filter_cons_False by naive_solver.
      rewrite !length_app in *. simpl in *.
      pose proof (length_filter (fun y => y ≠ a) l1).
      pose proof (length_filter (fun y => y ≠ a) l2). lia.
    + assert (¬ NoDup l) as Hdup' by (intros ?; apply Hdup; by constructor).
      specialize (IH Hdup'). lia.
Qed.

End FirstOccurrences.

Module BenchFacts.
Import Bench.

Lemma foldl_snoc {X} (acc l : list X) :
  foldl (fun s x => s ++ [x]) acc l = acc ++ l.
Proof.
  revert acc. induction l as [|x l IH]; intros acc; simpl.
  - by rewrite app_nil_r.
  - by rewrite IH, <-app_assoc.
Qed.

Lemma build_stack_eq (lines : list str) : build_stack lines = lines.
Proof. apply foldl_snoc. Qed.

Lemma build_queue_eq (lines : list str) : build_queue lines = lines.
Proof. apply foldl_snoc. Qed.

Lemma build_hashtable_snoc (lines : list str) (x : str) :
  build_hashtable (lines ++ [x])
  = dict_set (build_hashtable lines) x (Z.of_nat (length lines)).
Proof.
  unfold build_hashtable, enumerate.
  rewrite imap_app, foldl_app. simpl. by rewrite Nat.add_0_r.
Qed.

Lemma build_hashtable_keys (lines : list str) :
  dict_keys (build_hashtable lines) = first_occurrences lines.
Proof.
  induction lines as [|x lines IH] using rev_ind; [done|].
  rewrite build_hashtable_snoc, dict_keys_set, first_occurrences_snoc, IH.
  destruct (decide (x ∈ lines)) as [Hin|Hnin].
  - by rewrite decide_True by (by apply elem_of_first_occurrences).
  - by rewrite decide_False by (by rewrite elem_of_first_occurrences).
Qed.

Lemma build_hashtable_tag (lines : list str) (i : nat) (x : str) :
  lines !! i = Some x →
  (∀ j, (i < j)%nat → lines !! j ≠ Some x) →
  dict_get (build_hashtable lines) x = Some (Z.of_nat i).
Proof.
  revert i. induction lines as [|y lines IH] using rev_ind; intros i Hi Hlast.
  - done.
  - rewrite build_hashtable_snoc, dict_get_set.
    destruct (decide (i = length lines)) as [->|Hne].
    + rewrite lookup_app_r, Nat.sub_diag in Hi by done. simpl in Hi.
      simplify_eq. by rewrite decide_True.
    + assert (i < length lines)%nat as Hlt.
      { apply lookup_lt_Some in Hi. rewrite length_app in Hi. simpl in Hi. lia. }
      rewrite lookup_app_l in Hi by done.
      rewrite decide_False.
      * apply IH; [done|]. intros j Hj Hx.
        apply (Hlast j Hj). by apply lookup_app_l_Some.
      * intros ->. apply (Hlast (length lines) Hlt).
        by rewrite lookup_app_r, Nat.sub_diag by done.
Qed.

Lemma load_filter (raw : list str) :
  load raw = filter (fun s => s ≠ []) (Str.strip <$> raw).
Proof.
  induction raw as [|line raw IH]; [done|].
  cbn [load]. rewrite fmap_cons, filter_cons, IH.
  destruct (Str.strip line) eqn:E; cbn [Str.truthy]; by case_decide.
Qed.

Lemma load_nonblank (raw : list str) :
  load raw = Str.strip <$> filter (fun line => ¬ blank line) raw.
Proof.
  induction raw as [|line raw IH]; [done|].
  cbn [load]. rewrite filter_cons, IH.
  destruct (Str.strip line) eqn:E; cbn [Str.truthy].
  - apply StrFacts.strip_nil in E. by rewrite decide_False by (by intros []).
  - rewrite decide_True; [by rewrite fmap_cons, E|].
    intros Hb%StrFacts.strip_nil. congruence.
Qed.

Lemma subscript_nat {X} (xs : list X) (i : nat) (x : X) :
  xs !! i = Some x → subscript xs (Z.of_nat i) = Some x.
Proof.
  intros Hi. unfold subscript.
  rewrite py_index_nat by (by eapply lookup_lt_Some). done.
Qed.

Lemma probe_found (c : kind) (xs : list str) (p : nat) (x : str) :
  xs !! p = Some x →
  probe c xs (Z.of_nat (S p)) = Some (Found c (Z.of_nat (S p)) x).
Proof.
  intros Hp. unfold probe. apply lookup_lt_Some in Hp as Hlt.
  rewrite bool_decide_eq_true_2 by lia.
  replace (Z.of_nat (S p) - 1) with (Z.of_nat p) by lia.
  by rewrite (subscript_nat _ _ _ Hp).
Qed.

Lemma probe_beyond (c : kind) (xs : list str) (p : Z) :
  Z.of_nat (length xs) < p → probe c xs p = Some (OutOfRange c p).
Proof. intros Hp. unfold probe. by rewrite bool_decide_eq_false_2 by lia. Qed.

Lemma list_pop_snoc {X} (xs : list X) (x : X) :
  list_pop (xs ++ [x]) = Some (x, xs).
Proof. unfold list_pop. by rewrite last_snoc, removelast_last. Qed.

Lemma nonempty_snoc {X} (xs : list X) (x : X) : nonempty (xs ++ [x]) = true.
Proof. by destruct xs. Qed.

Lemma guarded_pops (ks : list Z) (st : list str) :
  for_each ks (fun _ st =>
    if nonempty st then snd <$> list_pop st else Some st) st
  = Some (take (length st - length ks) st).
Proof.
  revert st. induction ks as [|k ks IH]; intros st; cbn [for_each].
  - by rewrite take_ge by (simpl; lia).
  - destruct st as [|x st _] using rev_ind.
    + cbn [nonempty]. simpl. by rewrite IH.
    + rewrite nonempty_snoc, list_pop_snoc. simpl. rewrite IH.
      rewrite length_app. simpl.
      replace (length st + 1 - S (length ks))%nat
        with (length st - length ks)%nat by lia.
      by rewrite take_app_le by lia.
Qed.

(** Ten guarded pops remove the last ten items, or all of them. *)
Lemma remove_stack_eq (st : list str) :
  remove_stack st = Some (take (length st - 10) st).
Proof. unfold remove_stack. by rewrite guarded_pops. Qed.

Lemma guarded_poplefts (ks : list Z) (q : list str) :
  for_each ks (fun _ q =>
    if nonempty q then snd <$> popleft q else Some q) q
  = Some (drop (length ks) q).
Proof.
  revert q. induction ks as [|k ks IH]; intros q; cbn [for_each]; [done|].
  destruct q as [|x q]; simpl; rewrite IH; [by rewrite drop_nil|done].
Qed.

(** Ten guarded poplefts remove the first ten items, or all of them. *)
Lemma remove_queue_eq (q : list str) : remove_queue q = Some (drop 10 q).
Proof. unfold remove_queue. by rewrite guarded_poplefts. Qed.

Lemma remove_hashtable_eq (d : dict str Z) :
  remove_hashtable (dict_keys d) d = Some (drop 10 d).
Proof. apply remove_keys_front. Qed.




End BenchFacts.

(** ** The claims about the container benchmark *)

(** C4: the loader returns the trimmed lines that are not empty after
    trimming, in their original order; these are the trimmed forms of exactly
    the lines that are not blank, and the length of the listing is the number
    of such lines. *)
Theorem load_round_trip (raw : list str) :
  Bench.load raw = filter (fun s => s ≠ []) (Str.strip <$> raw)
  ∧ Bench.load raw = Str.strip <$> filter (fun line => ¬ blank line) raw
  ∧ length (Bench.load raw)
    = length (filter (fun line => Str.strip line ≠ []) raw).
Proof.
  split_and!.
  - apply BenchFacts.load_filter.
  - apply BenchFacts.load_nonblank.
  - rewrite BenchFacts.load_nonblank, length_fmap. f_equal.
    apply list_filter_iff. intros line. unfold blank.
    by rewrite StrFacts.strip_nil.
Qed.

(** C5: a probe at a position beyond the size of the container reports an
    out-of-range notice, no item, and the remaining probes are still made;
    against a stack of four items the five positions give an item at 1 and
    at N = 4 only. *)
Theorem probe_beyond_size (c : Bench.kind) (xs : list str) (p : Z)
    (ps : list Z) :
  Z.of_nat (length xs) < p →
  Bench.probe c xs p = Some (Bench.OutOfRange c p)
  ∧ Bench.probe_all c xs (p :: ps)
    = (Bench.OutOfRange c p ::.) <$> Bench.probe_all c xs ps
  ∧ ∀ x1 x2 x3 x4 : str,
      Bench.probe_all Bench.Stack (Bench.build_stack [x1; x2; x3; x4])
        (Bench.positions [x1; x2; x3; x4])
      = Some [Bench.Found Bench.Stack 1 x1; Bench.OutOfRange Bench.Stack 100;
              Bench.OutOfRange Bench.Stack 1000;
              Bench.OutOfRange Bench.Stack 5000;
              Bench.Found Bench.Stack 4 x4].
Proof.
  intros Hp. pose proof (BenchFacts.probe_beyond c xs p Hp) as Hprobe.
  split_and!; [done| |done].
  unfold Bench.probe_all. cbn [mapM]. rewrite Hprobe. simpl.
  by destruct (mapM _ ps).
Qed.

Lemma probe_beyond_size_witness :
  let xs := strs ["a.txt"; "b.txt"; "c.txt"; "d.txt"] in
  Bench.probe Bench.Queue xs 100 = Some (Bench.OutOfRange Bench.Queue 100)
  ∧ Bench.probe_all Bench.Queue xs [100; 4]
    = (Bench.OutOfRange Bench.Queue 100 ::.)
        <$> Bench.probe_all Bench.Queue xs [4]
  ∧ ∀ x1 x2 x3 x4 : str,
      Bench.probe_all Bench.Stack (Bench.build_stack [x1; x2; x3; x4])
        (Bench.positions [x1; x2; x3; x4])
      = Some [Bench.Found Bench.Stack 1 x1; Bench.OutOfRange Bench.Stack 100;
              Bench.OutOfRange Bench.Stack 1000;
              Bench.OutOfRange Bench.Stack 5000;
              Bench.Found Bench.Stack 4 x4].
Proof.
  intros xs. apply (probe_beyond_size Bench.Queue xs 100 [4]).
  vm_compute. reflexivity.
Defined.

(** C6: when the stack, the queue and the map hold fewer than ten items
    each, the removal phase raises nothing and leaves all three empty. *)
Theorem removal_empties_small_containers (cs : Bench.containers) :
  (length (Bench.stack cs) < 10)%nat →
  (length (Bench.queue cs) < 10)%nat →
  (length (Bench.hashtable cs) < 10)%nat →
  Bench.remove_stack (Bench.stack cs) = Some []
  ∧ Bench.remove_queue (Bench.queue cs) = Some []
  ∧ Bench.remove_hashtable (dict_keys (Bench.hashtable cs)) (Bench.hashtable cs)
    = Some []
  ∧ Bench.remove_ten (dict_keys (Bench.hashtable cs)) cs
    = Some (Bench.Containers [] [] []).
Proof.
  intros Hs Hq Hh.
  assert (Bench.remove_stack (Bench.stack cs) = Some []) as Es.
  { rewrite BenchFacts.remove_stack_eq.
    by replace (length (Bench.stack cs) - 10)%nat with 0%nat by lia. }
  assert (Bench.remove_queue (Bench.queue cs) = Some []) as Eq.
  { by rewrite BenchFacts.remove_queue_eq, drop_ge by lia. }
  assert (Bench.remove_hashtable (dict_keys (Bench.hashtable cs))
            (Bench.hashtable cs) = Some []) as Eh.
  { by rewrite BenchFacts.remove_hashtable_eq, drop_ge by lia. }
  split_and!; [done..|].
  unfold Bench.remove_ten. by rewrite Es, Eq, Eh.
Qed.

Lemma removal_empties_small_containers_witness :
  let cs := Bench.build (strs ["a.txt"; "b.txt"; "a.txt"]) in
  Bench.remove_stack (Bench.stack cs) = Some []
  ∧ Bench.remove_queue (Bench.queue cs) = Some []
  ∧ Bench.remove_hashtable (dict_keys (Bench.hashtable cs)) (Bench.hashtable cs)
    = Some []
  ∧ Bench.remove_ten (dict_keys (Bench.hashtable cs)) cs
    = Some (Bench.Containers [] [] []).
Proof.
  intros cs. apply (removal_empties_small_containers cs); vm_compute; lia.
Defined.

(** C7: the keys of the map built from the listing are the distinct records
    of the listing in the order of their first occurrences, each once, and
    the tag of a record is the load index of its last occurrence. *)
Theorem hashtable_keys_and_tags (lines : list str) :
  dict_keys (Bench.build_hashtable lines) = first_occurrences lines
  ∧ NoDup (dict_keys (Bench.build_hashtable lines))
  ∧ (∀ x, x ∈ dict_keys (Bench.build_hashtable lines) ↔ x ∈ lines)
  ∧ ∀ (i : nat) (x : str),
      lines !! i = Some x →
      (∀ j, (i < j)%nat → lines !! j ≠ Some x) →
      dict_get (Bench.build_hashtable lines) x = Some (Z.of_nat i).
Proof.
  rewrite BenchFacts.build_hashtable_keys. split_and!.
  - done.
  - apply NoDup_first_occurrences.
  - intros x. apply elem_of_first_occurrences.
  - apply BenchFacts.build_hashtable_tag.
Qed.

(** C10: when the listing repeats a record, the map has fewer than N keys,
    so the probe at position N reports out of range against the map while it
    finds the last record against the stack and the queue. *)
Theorem duplicate_puts_map_probe_out_of_range (lines : list str) :
  ¬ NoDup lines →
  let cs := Bench.build lines in
  let n := Z.of_nat (length lines) in
  (length (dict_keys (Bench.hashtable cs)) < length lines)%nat
  ∧ Bench.probe Bench.Hashtable (dict_keys (Bench.hashtable cs)) n
    = Some (Bench.OutOfRange Bench.Hashtable n)
  ∧ ∃ x, last lines = Some x
         ∧ Bench.probe Bench.Stack (Bench.stack cs) n
           = Some (Bench.Found Bench.Stack n x)
         ∧ Bench.probe Bench.Queue (Bench.queue cs) n
           = Some (Bench.Found Bench.Queue n x).
Proof.
  intros Hdup cs n.
  assert (length (dict_keys (Bench.hashtable cs)) < length lines)%nat as Hlt.
  { unfold cs. simpl. rewrite BenchFacts.build_hashtable_keys.
    by apply length_first_occurrences_dup. }
  split_and!; [done|apply BenchFacts.probe_beyond; lia|].
  destruct lines as [|x lines _] using rev_ind.
  { destruct Hdup. constructor. }
  exists x. rewrite last_snoc. split; [done|].
  unfold cs, n. simpl.
  rewrite BenchFacts.build_stack_eq, BenchFacts.build_queue_eq.
  rewrite length_app. simpl.
  replace (length lines + 1)%nat with (S (length lines)) by lia.
  split; apply BenchFacts.probe_found;
    by rewrite lookup_app_r, Nat.sub_diag by done.
Qed.

Lemma duplicate_puts_map_probe_out_of_range_witness :
  let lines := strs ["a.txt"; "b.txt"; "a.txt"; "d.txt"] in
  let cs := Bench.build lines in
  (length (dict_keys (Bench.hashtable cs)) < length lines)%nat
  ∧ Bench.probe Bench.Hashtable (dict_keys (Bench.hashtable cs)) 4
    = Some (Bench.OutOfRange Bench.Hashtable 4)
  ∧ ∃ x, last lines = Some x
         ∧ Bench.probe Bench.Stack (Bench.stack cs) 4
           = Some (Bench.Found Bench.Stack 4 x)
         ∧ Bench.probe Bench.Queue (Bench.queue cs) 4
           = Some (Bench.Found Bench.Queue 4 x).
Proof.
  intros lines.
  apply (duplicate_puts_map_probe_out_of_range lines).
  intros Hnd. apply NoDup_cons in Hnd as [Hnotin _].
  apply Hnotin. right. left.
Defined.

(** ** Further properties of the sorting functions *)

Section SortedInput.
Context {A : Type} `{PyOrdLaws A}.
Implicit Types (l : list A) (arr : loc).

Lemma non_decreasing_ordered l : non_decreasing l → ordered l.
Proof.
  intros Hnd i j. revert i. induction j as [|j IH]; intros i x y Hij Hx Hy.
  - lia.
  - destruct (decide (i = j)) as [->|Hne]; [by eapply Hnd|].
    destruct (lookup_lt_is_Some_2 l j) as [z Hz].
    { apply lookup_lt_Some in Hy. lia. }
    eapply py_le_trans; [|by eapply (Hnd j)].
    eapply IH; [|done..]. lia.
Qed.

(** On a non-decreasing list the while loop stops at once: one comparison. *)
Lemma shift_while_stops arr l key (i : nat) y :
  l !! i = Some y → py_gt y key = false →
  runs (shift_while arr key (Z.of_nat i)) arr l (Z.of_nat i) l
       [GetItem arr (Z.of_nat i) y].
Proof.
  intros Hy Hgt σ Hl. rewrite shift_while_eq, decide_True by lia.
  by rewrite (runs_getitem arr l i y Hy σ Hl), Hgt.
Qed.

Lemma insertion_step_in_place arr l (i : nat) y key :
  l !! i = Some y → l !! S i = Some key → py_le y key = true →
  runs (insertion_step arr (Z.of_nat (S i))) arr l () l
       [GetItem arr (Z.of_nat (S i)) key; GetItem arr (Z.of_nat i) y;
        SetItem arr (Z.of_nat (S i)) key].
Proof.
  intros Hy Hkey Hle. unfold insertion_step.
  run_getitem.
  replace (Z.of_nat (S i) - 1) with (Z.of_nat i) by lia.
  eapply (runs_bind _ _ _ _ _ _ [_]).
  { apply shift_while_stops; [done|]. by apply py_le_not_gt. }
  replace (Z.of_nat i + 1) with (Z.of_nat (S i)) by lia.
  rewrite <-(list_insert_id l (S i) key Hkey) at 2.
  apply runs_setitem. by eapply lookup_lt_Some.
Qed.

Lemma insertion_loops_in_place arr l :
  non_decreasing l →
  ∃ t,
    runs (for_in (range 1 (Z.of_nat (length l)))
            (fun i _ => insertion_step arr i) ()) arr l () l t
    ∧ length t = (3 * (length l - 1))%nat ∧ writes t = (length l - 1)%nat.
Proof.
  intros Hnd.
  destruct (runs_for_in
    (fun k (_ : ()) l' t =>
       l' = l ∧ length t = (3 * k)%nat ∧ writes t = k)
    arr (range 1 (Z.of_nat (length l)))
    (fun i _ => insertion_step arr i) () l)
    as ([] & l' & t & Hrun & -> & Hlen & Hw).
  - done.
  - intros k i [] l1 t1 [-> Hk]%range_lookup (-> & Hlen & Hw).
    destruct (lookup_lt_is_Some_2 l k) as [y Hy]; [lia|].
    destruct (lookup_lt_is_Some_2 l (S k)) as [key Hkey]; [lia|].
    replace (1 + Z.of_nat k) with (Z.of_nat (S k)) by lia.
    eexists (), l, _. split.
    + apply (insertion_step_in_place arr l k y key); [done..|].
      by apply (Hnd k).
    + split_and!; [done|rewrite length_app; simpl; lia|].
      unfold writes in *. rewrite filter_app, length_app, Hw.
      simpl. lia.
  - rewrite range_length in Hlen, Hw. exists t. split_and!; [done|lia..].
Qed.

End SortedInput.

(** X1: a list of strings that is already non-decreasing is returned as it
    is by each of the three sorting functions. *)
Theorem sorted_input_returned_as_is (σ : state str) (data : loc)
    (l : list str) (sort : loc → M str loc) :
  sort ∈ [bubble_sort; selection_sort; insertion_sort] →
  heap σ !! data = Some l →
  non_decreasing l →
  result (sort data) σ = Some l.
Proof.
  intros Hsort Hd Ho%non_decreasing_ordered.
  assert (∃ r, result (sort data) σ = Some r ∧ r ≡ₚ l ∧ ordered r)
    as (r & -> & Hp & Hr).
  { repeat (apply elem_of_cons in Hsort as [->|Hsort]).
    - by apply bubble_sort_result.
    - by apply selection_sort_result.
    - destruct (insertion_sort_result σ data l Hd) as (r & ? & ? & ? & _).
      by exists r.
    - by apply elem_of_nil in Hsort. }
  f_equal. by apply ordered_unique.
Qed.

Lemma sorted_input_returned_as_is_witness :
  let l := strs ["apple"; "fig"; "fig"; "pear"] in
  result (selection_sort 1%positive) (store_of l) = Some l.
Proof.
  intros l.
  apply (sorted_input_returned_as_is (store_of l) 1%positive l selection_sort).
  - right. left.
  - reflexivity.
  - intros [|[|[|[|i]]]] x y Hx Hy; simplify_eq/=; by vm_compute.
Defined.

(** X6: on a list that is already non-decreasing, insertion_sort makes
    three accesses for each item after the first (read the key, read its
    left neighbour, write the key back) and moves nothing. *)
Theorem insertion_sort_linear_on_sorted_input {A} `{PyOrdLaws A}
    (σ : state A) (data : loc) (l : list A) :
  heap σ !! data = Some l →
  non_decreasing l →
  ∃ arr σ' t,
    insertion_sort data σ = Some (arr, σ')
    ∧ heap σ' !! arr = Some l
    ∧ trace σ' = trace σ ++ t
    ∧ length t = (3 * (length l - 1))%nat
    ∧ writes t = (length l - 1)%nat.
Proof.
  intros Hd Hnd.
  destruct (runs_on_copy
    (fun arr n => for_in (range 1 n) (fun i _ => insertion_step arr i) ())
    data σ l
    (fun _ l' t => l' = l ∧ length t = (3 * (length l - 1))%nat
                   ∧ writes t = (length l - 1)%nat) Hd)
    as (arr & l' & t & Hrun & _ & -> & Hlen & Hw).
  - intros arr.
    destruct (insertion_loops_in_place arr l Hnd) as (t & ? & ? & ?).
    by exists l, t.
  - eexists arr, _, t. split; [exact Hrun|]. simpl.
    by rewrite lookup_insert_eq.
Qed.

Lemma insertion_sort_linear_on_sorted_input_witness :
  let l := strs ["apple"; "fig"; "fig"; "pear"] in
  ∃ arr σ' t,
    insertion_sort 1%positive (store_of l) = Some (arr, σ')
    ∧ heap σ' !! arr = Some l
    ∧ trace σ' = trace (store_of l) ++ t
    ∧ length t = (3 * (length l - 1))%nat
    ∧ writes t = (length l - 1)%nat.
Proof.
  intros l.
  apply (insertion_sort_linear_on_sorted_input (store_of l) 1%positive l).
  - reflexivity.
  - intros [|[|[|[|i]]]] x y Hx Hy; simplify_eq/=; by vm_compute.
Defined.

(** *** Bubble sort is stable, selection sort is not *)

Section BubbleStable.
Context {A : Type} `{PyOrdLaws A}.
Implicit Types (l : list A) (arr : loc).

Lemma swap_adjacent l (j : nat) x y :
  l !! j = Some x → l !! S j = Some y →
  l = take j l ++ x :: y :: drop (S (S j)) l
  ∧ <[S j := x]> (<[j := y]> l) = take j l ++ y :: x :: drop (S (S j)) l.
Proof.
  intros Hx Hy. apply lookup_lt_Some in Hx as Hj.
  assert (l = take j l ++ x :: y :: drop (S (S j)) l) as Hl.
  { rewrite <-(take_drop_middle l j x Hx) at 1. do 2 f_equal.
    by apply drop_S. }
  split; [done|].
  assert (length (take j l) = j) as Hlen by (rewrite length_take; lia).
  set (l1 := take j l) in *. set (l2 := drop (S (S j)) l) in *.
  clearbody l1 l2. subst l j.
  rewrite (insert_app_r_alt _ _ (length l1)) by lia.
  rewrite insert_app_r_alt by lia.
  rewrite Nat.sub_diag.
  by replace (S (length l1) - length l1)%nat with 1%nat by lia.
Qed.

(** Exchanging two adjacent items, the left strictly greater, keeps the
    order among the items that compare equal to any [v]. *)
Lemma swap_adjacent_equals l (j : nat) x y (v : A) :
  l !! j = Some x → l !! S j = Some y → py_gt x y = true →
  equals_of v (<[S j := x]> (<[j := y]> l)) = equals_of v l.
Proof.
  intros Hx Hy Hgt. destruct (swap_adjacent l j x y Hx Hy) as [Hl ->].
  rewrite Hl at 3. unfold equals_of.
  rewrite !filter_app, !filter_cons. f_equal.
  destruct (decide (py_equiv v x = true)) as [Hvx|]; [|done].
  destruct (decide (py_equiv v y = true)) as [Hvy|]; [|done].
  unfold py_equiv in *.
  apply andb_true_iff in Hvx as [_ Hxv]. apply andb_true_iff in Hvy as [Hvy _].
  pose proof (py_le_trans _ _ _ Hxv Hvy) as Hle%py_le_not_gt. congruence.
Qed.

Lemma bubble_pass_equals arr l (m : nat) :
  (m < length l)%nat →
  ∃ l' t,
    runs (for_in (range 0 (Z.of_nat m)) (fun j _ => bubble_step arr j) ())
         arr l () l' t
    ∧ length l' = length l ∧ ∀ v, equals_of v l' = equals_of v l.
Proof.
  intros Hm.
  destruct (runs_for_in
    (fun _ (_ : ()) l' _ =>
       length l' = length l ∧ ∀ v, equals_of v l' = equals_of v l)
    arr (range 0 (Z.of_nat m)) (fun j _ => bubble_step arr j) () l)
    as ([] & l' & t & Hrun & Hlen & Heq); [done| |by exists l', t].
  intros k j [] l1 t1 [-> Hk]%range_lookup (Hlen & Heq).
  destruct (lookup_lt_is_Some_2 l1 k) as [x Hx]; [lia|].
  destruct (lookup_lt_is_Some_2 l1 (S k)) as [y Hy]; [lia|].
  rewrite Z.add_0_l.
  eexists (), _, _. split; [by apply (bubble_step_runs arr l1 0 k x y)|].
  destruct (py_gt x y) eqn:Hgt; [|done]. split.
  - by rewrite !length_insert.
  - intros v. by rewrite swap_adjacent_equals.
Qed.

Lemma bubble_loops_equals arr l :
  ∃ l' t,
    runs (for_in (range 0 (Z.of_nat (length l))) (fun i _ =>
            for_in (range 0 (Z.of_nat (length l) - i - 1))
              (fun j _ => bubble_step arr j) ()) ()) arr l () l' t
    ∧ ∀ v, equals_of v l' = equals_of v l.
Proof.
  destruct (runs_for_in
    (fun _ (_ : ()) l' _ =>
       length l' = length l ∧ ∀ v, equals_of v l' = equals_of v l)
    arr (range 0 (Z.of_nat (length l)))
    (fun i _ => for_in (range 0 (Z.of_nat (length l) - i - 1))
                  (fun j _ => bubble_step arr j) ()) () l)
    as ([] & l' & t & Hrun & Hlen & Heq); [done| |by exists l', t].
  intros k i [] l1 t1 [-> Hk]%range_lookup (Hlen & Heq).
  rewrite Z.add_0_l.
  replace (Z.of_nat (length l) - Z.of_nat k - 1)
    with (Z.of_nat (length l - k - 1)) by lia.
  destruct (bubble_pass_equals arr l1 (length l - k - 1))
    as (l2 & t2 & Hrun2 & Hlen2 & Heq2); [lia|].
  eexists (), _, _. split; [exact Hrun2|]. split; [congruence|].
  intros v. by rewrite Heq2.
Qed.

Lemma bubble_sort_equals (σ : state A) (data : loc) l :
  heap σ !! data = Some l →
  ∃ r, result (bubble_sort data) σ = Some r
       ∧ ∀ v, equals_of v r = equals_of v l.
Proof.
  intros Hd.
  destruct (runs_on_copy
    (fun arr n => for_in (range 0 n) (fun i _ =>
       for_in (range 0 (n - i - 1)) (fun j _ => bubble_step arr j) ()) ())
    data σ l (fun _ l' _ => ∀ v, equals_of v l' = equals_of v l) Hd)
    as (arr & l' & t & Hrun & _ & Heq).
  - intros arr. destruct (bubble_loops_equals arr l) as (l' & t & ? & ?).
    by exists l', t.
  - exists l'. split; [by eapply result_of_spec|done].
Qed.

End BubbleStable.

(** X2: bubble_sort is stable.  Run on the strings of [l], each carrying its
    input position and compared by its value alone, it returns a permutation
    in which two items of equal value stand in the order of their input
    positions. *)
Theorem bubble_sort_stable (σ : state (tagged str)) (data : loc)
    (l : list str) :
  heap σ !! data = Some (tag_positions l) →
  ∃ r, result (bubble_sort data) σ = Some r
       ∧ r ≡ₚ tag_positions l
       ∧ positions_kept r.
Proof.
  intros Hd.
  destruct (bubble_sort_result σ data _ Hd) as (r & Hr & Hp & _).
  destruct (bubble_sort_equals σ data _ Hd) as (r' & Hr' & Heq).
  assert (r' = r) as -> by congruence.
  exists r. split_and!; [done..|]. by eapply positions_kept_of_equals.
Qed.

Lemma bubble_sort_stable_witness :
  let l := strs ["b"; "a"; "c"; "a"; "b"; "a"] in
  ∃ r, result (bubble_sort 1%positive) (store_of (tag_positions l)) = Some r
       ∧ r ≡ₚ tag_positions l
       ∧ positions_kept r.
Proof.
  intros l.
  apply (bubble_sort_stable (store_of (tag_positions l)) 1%positive l).
  reflexivity.
Defined.

(** X3: selection_sort is not stable: the exchange that brings the least
    item to the front can carry an item past another of the same value. *)
Theorem selection_sort_not_stable :
  ¬ ∀ (l : list str) (r : list (tagged str)),
      result (selection_sort 1%positive) (store_of (tag_positions l)) = Some r →
      positions_kept r.
Proof.
  intros Hstable.
  pose proof (Hstable (strs ["b"; "b"; "a"]) _ eq_refl 1%nat 2%nat _ _
                ltac:(lia) eq_refl eq_refl eq_refl) as Hlt.
  vm_compute in Hlt. lia.
Qed.

(** *** How many accesses *)

Lemma length_classic_schedule (n : nat) :
  (2 * length (classic_schedule (Z.of_nat n)) = n * (n - 1))%nat.
Proof.
  unfold classic_schedule.
  assert (∀ k : nat, (k ≤ n)%nat →
    2 * Z.of_nat (length (range 0 (Z.of_nat k) ≫= fun i =>
           range 0 (Z.of_nat n - i - 1) ≫= fun j => [(i, j)]))
    = Z.of_nat k * (2 * Z.of_nat n - Z.of_nat k - 1)) as Hgen.
  { induction k as [|k IH]; intros Hk; [done|].
    rewrite bind_range_snoc, length_app, bind_pair, length_fmap, range_length.
    rewrite Nat2Z.inj_add, Z.mul_add_distr_l, IH by lia. lia. }
  specialize (Hgen n (le_n n)). destruct n as [|n]; [done|]. simpl. nia.
Qed.

(** X4: bubble_sort makes n(n-1)/2 comparison steps on every input of
    length n, whatever its contents. *)
Theorem bubble_sort_comparison_count {A} `{PyOrd A} (σ : state A)
    (data : loc) (l : list A) :
  heap σ !! data = Some l →
  ∃ arr σ' steps,
    bubble_sort data σ = Some (arr, σ')
    ∧ trace σ' = trace σ ++ (steps ≫= step_events arr)
    ∧ (2 * length steps = length l * (length l - 1))%nat.
Proof.
  intros Hd.
  destruct (runs_on_copy
    (fun arr n => for_in (range 0 n) (fun i _ =>
       for_in (range 0 (n - i - 1)) (fun j _ => bubble_step arr j) ()) ())
    data σ l
    (fun arr _ t => ∃ steps,
       t = steps ≫= step_events arr
       ∧ (fun s => (pass s, pos s)) <$> steps
         = classic_schedule (Z.of_nat (length l))) Hd)
    as (arr & l' & t & Hrun & _ & steps & -> & Hsched).
  - intros arr. destruct (bubble_loops_trace arr l) as (l' & steps & ? & ? & _).
    exists l', (steps ≫= step_events arr). split; [done|]. by exists steps.
  - eexists arr, _, steps. split; [exact Hrun|]. split; [done|].
    by rewrite <-length_classic_schedule, <-Hsched, length_fmap.
Qed.

Lemma bubble_sort_comparison_count_witness :
  let l := strs ["d"; "c"; "b"; "a"; "a"] in
  ∃ arr σ' steps,
    bubble_sort 1%positive (store_of l) = Some (arr, σ')
    ∧ trace σ' = trace (store_of l) ++ (steps ≫= step_events arr)
    ∧ (2 * length steps = length l * (length l - 1))%nat.
Proof.
  intros l. apply (bubble_sort_comparison_count (store_of l) 1%positive l).
  reflexivity.
Defined.

Lemma writes_app {A} (t1 t2 : list (event A)) :
  writes (t1 ++ t2) = (writes t1 + writes t2)%nat.
Proof. unfold writes. by rewrite filter_app, length_app. Qed.

Section SelectionCount.
Context {A : Type} `{PyOrd A}.
Implicit Types (l : list A) (arr : loc).

(** The scan reads two items for each position after [i] and writes
    nothing. *)
Lemma selection_scan_count arr l (i : nat) :
  (i < length l)%nat →
  ∃ (m : nat) t,
    runs (for_in (range (Z.of_nat i + 1) (Z.of_nat (length l)))
            (selection_step arr) (Z.of_nat i)) arr l (Z.of_nat m) l t
    ∧ (m < length l)%nat
    ∧ length t = (2 * (length l - S i))%nat ∧ writes t = 0%nat.
Proof.
  intros Hi.
  destruct (runs_for_in
    (fun k (mz : Z) l' t =>
       l' = l ∧ (∃ m : nat, mz = Z.of_nat m ∧ (m < length l)%nat)
       ∧ length t = (2 * k)%nat ∧ writes t = 0%nat)
    arr (range (Z.of_nat i + 1) (Z.of_nat (length l)))
    (selection_step arr) (Z.of_nat i) l)
    as (mz & l' & t & Hrun & -> & (m & -> & Hm) & Hlen & Hw).
  - split_and!; [done|by exists i|done..].
  - intros k j mz l1 t1 [-> Hk]%range_lookup (-> & (m & -> & Hm) & Hlen & Hw).
    destruct (lookup_lt_is_Some_2 l (S i + k)) as [x Hx]; [lia|].
    destruct (lookup_lt_is_Some_2 l m) as [y Hy]; [lia|].
    replace (Z.of_nat i + 1 + Z.of_nat k) with (Z.of_nat (S i + k)) by lia.
    eexists _, l, _. split; [by apply selection_step_runs|].
    split_and!; [done| |rewrite length_app; simpl; lia
                |by rewrite writes_app, Hw].
    destruct (py_lt x y); [exists (S i + k)%nat; split; [done|lia]|by exists m].
  - rewrite range_length in Hlen. exists m, t. split_and!; [done..|lia|done].
Qed.

Lemma selection_loops_count arr l :
  ∃ l' t,
    runs (for_in (range 0 (Z.of_nat (length l))) (fun i _ =>
            bind (for_in (range (i + 1) (Z.of_nat (length l)))
                    (selection_step arr) i)
                 (fun min_idx => swap_items arr i min_idx)) ()) arr l () l' t
    ∧ length t = (length l * (length l - 1) + 4 * length l)%nat
    ∧ writes t = (2 * length l)%nat.
Proof.
  set (n := length l).
  destruct (runs_for_in
    (fun k (_ : ()) l' t =>
       length l' = n
       ∧ Z.of_nat (length t)
         = Z.of_nat k * (2 * Z.of_nat n - Z.of_nat k - 1) + 4 * Z.of_nat k
       ∧ writes t = (2 * k)%nat)
    arr (range 0 (Z.of_nat n))
    (fun i _ => bind (for_in (range (i + 1) (Z.of_nat n))
                        (selection_step arr) i)
                     (fun min_idx => swap_items arr i min_idx)) () l)
    as ([] & l' & t & Hrun & _ & Hlen & Hw).
  - split_and!; [done|simpl; lia|done].
  - intros k i [] l1 t1 [-> Hk]%range_lookup (Hn & Hlen & Hw).
    rewrite Z.add_0_l, <-Hn.
    destruct (selection_scan_count arr l1 k) as (m & t2 & Hscan & Hm & Hl2 & Hw2);
      [lia|].
    destruct (lookup_lt_is_Some_2 l1 k) as [x Hx]; [lia|].
    destruct (lookup_lt_is_Some_2 l1 m) as [y Hy]; [lia|].
    eexists (), _, _. split.
    + eapply runs_bind; [exact Hscan|]. by apply swap_items_runs.
    + split_and!.
      * by rewrite !length_insert.
      * rewrite !length_app, Hl2. simpl. nia.
      * rewrite !writes_app, Hw, Hw2. unfold writes. simpl. lia.
  - exists l', t. rewrite range_length in Hlen, Hw.
    split_and!; [done| |lia].
    destruct n as [|n']; [simpl in *; lia|]. nia.
Qed.

End SelectionCount.

(** X5: on every input of length n, selection_sort makes n(n-1) reads for
    its comparisons and n exchanges of two reads and two writes each, also
    when the input is already sorted. *)
Theorem selection_sort_access_count {A} `{PyOrd A} (σ : state A)
    (data : loc) (l : list A) :
  heap σ !! data = Some l →
  ∃ arr σ' t,
    selection_sort data σ = Some (arr, σ')
    ∧ trace σ' = trace σ ++ t
    ∧ length t = (length l * (length l - 1) + 4 * length l)%nat
    ∧ writes t = (2 * length l)%nat.
Proof.
  intros Hd.
  destruct (runs_on_copy
    (fun arr n => for_in (range 0 n) (fun i _ =>
       bind (for_in (range (i + 1) n) (selection_step arr) i)
            (fun min_idx => swap_items arr i min_idx)) ())
    data σ l
    (fun _ _ t => length t = (length l * (length l - 1) + 4 * length l)%nat
                  ∧ writes t = (2 * length l)%nat) Hd)
    as (arr & l' & t & Hrun & _ & Hlen & Hw).
  - intros arr. destruct (selection_loops_count arr l) as (l' & t & ? & ? & ?).
    by exists l', t.
  - by eexists arr, _, t.
Qed.

Lemma selection_sort_access_count_witness :
  let l := strs ["a"; "b"; "c"] in
  ∃ arr σ' t,
    selection_sort 1%positive (store_of l) = Some (arr, σ')
    ∧ trace σ' = trace (store_of l) ++ t
    ∧ length t = (length l * (length l - 1) + 4 * length l)%nat
    ∧ writes t = (2 * length l)%nat.
Proof.
  intros l. apply (selection_sort_access_count (store_of l) 1%positive l).
  reflexivity.
Defined.

(** *** The timing harness *)

Section SortMain.
Context {T : Type} (perf_counter : nat → T) (minus : T → T → T).
Implicit Types (σ : state str) (lines : loc).

(** One round of the loop of [main]: the sort runs on [lines], the clock is
    read before and after, and [lines] and every older object are left as
    they were. *)
Lemma measured_round (name : String.string) (func : loc → M str loc)
    (out : list (SortBench.report T)) (calls : nat) σ lines (l : list str) :
  func ∈ [bubble_sort; selection_sort; insertion_sort] →
  heap σ !! lines = Some l →
  ∃ σ',
    bind (SortBench.measure_sort_time perf_counter minus func lines calls)
      (fun r => bind (len lines) (fun n =>
         ret (out ++ [SortBench.Report name (snd (fst r)) n], snd r))) σ
    = Some ((out ++ [SortBench.Report name
                       (minus (perf_counter (S calls)) (perf_counter calls))
                       (Z.of_nat (length l))], S (S calls)), σ')
    ∧ ∀ d x, heap σ !! d = Some x → heap σ' !! d = Some x.
Proof.
  intros Hfunc Hl.
  assert (∃ arr l' t,
    func lines σ = Some (arr, State (<[arr := l']> (heap σ)) (trace σ ++ t))
    ∧ heap σ !! arr = None) as (arr & l' & t & Hrun & Hnew).
  { repeat (apply elem_of_cons in Hfunc as [->|Hfunc]).
    - destruct (bubble_sort_spec σ lines l Hl) as (arr & l' & t & ? & ? & _).
      by exists arr, l', t.
    - destruct (selection_sort_spec σ lines l Hl) as (arr & l' & t & ? & ? & _).
      by exists arr, l', t.
    - destruct (insertion_sort_spec σ lines l Hl) as (arr & l' & t & ? & ? & _).
      by exists arr, l', t.
    - by apply elem_of_nil in Hfunc. }
  assert (∀ d x, heap σ !! d = Some x → <[arr := l']> (heap σ) !! d = Some x)
    as Hframe.
  { intros d x Hd. rewrite lookup_insert_ne; [done|congruence]. }
  exists (State (<[arr := l']> (heap σ)) (trace σ ++ t)).
  split; [|exact Hframe].
  unfold SortBench.measure_sort_time, bind, ret, len. rewrite Hrun. simpl.
  by rewrite (Hframe _ _ Hl).
Qed.

End SortMain.

(** X7: [main] of sorting.py never raises, whatever the file holds.  It
    prints one report for each of Bubble, Selection and Insertion Sort, in
    this order, each with the number of loaded lines and the difference of
    two consecutive clock readings; afterwards [lines] still holds the
    loaded listing, unsorted, and every older object is unchanged. *)
Theorem sort_main_reports {T} (perf_counter : nat → T) (minus : T → T → T)
    (raw : list str) (σ : state str) :
  ∃ lines σ',
    SortBench.main perf_counter minus raw σ
    = Some ((lines,
             [SortBench.Report "Bubble Sort"
                (minus (perf_counter 1%nat) (perf_counter 0%nat))
                (Z.of_nat (length (Bench.load raw)));
              SortBench.Report "Selection Sort"
                (minus (perf_counter 3%nat) (perf_counter 2%nat))
                (Z.of_nat (length (Bench.load raw)));
              SortBench.Report "Insertion Sort"
                (minus (perf_counter 5%nat) (perf_counter 4%nat))
                (Z.of_nat (length (Bench.load raw)))]), σ')
    ∧ heap σ !! lines = None
    ∧ heap σ' !! lines = Some (Bench.load raw)
    ∧ ∀ d x, heap σ !! d = Some x → heap σ' !! d = Some x.
Proof.
  set (lines := fresh (dom (heap σ))).
  set (σ1 := State (<[lines := Bench.load raw]> (heap σ)) (trace σ)).
  assert (heap σ !! lines = None) as Hnew by apply not_elem_of_dom, is_fresh.
  assert (heap σ1 !! lines = Some (Bench.load raw)) as H1
    by apply lookup_insert_eq.
  destruct (measured_round perf_counter minus "Bubble Sort" bubble_sort
              [] 0 σ1 lines _ ltac:(set_solver) H1) as (σ2 & E2 & F2).
  destruct (measured_round perf_counter minus "Selection Sort" selection_sort
              [SortBench.Report "Bubble Sort"
                 (minus (perf_counter 1%nat) (perf_counter 0%nat))
                 (Z.of_nat (length (Bench.load raw)))]
              2 σ2 lines _ ltac:(set_solver) (F2 _ _ H1)) as (σ3 & E3 & F3).
  destruct (measured_round perf_counter minus "Insertion Sort" insertion_sort
              [SortBench.Report "Bubble Sort"
                 (minus (perf_counter 1%nat) (perf_counter 0%nat))
                 (Z.of_nat (length (Bench.load raw)));
               SortBench.Report "Selection Sort"
                 (minus (perf_counter 3%nat) (perf_counter 2%nat))
                 (Z.of_nat (length (Bench.load raw)))]
              4 σ3 lines _ ltac:(set_solver) (F3 _ _ (F2 _ _ H1)))
    as (σ4 & E4 & F4).
  exists lines, σ4. split_and!; [|done|by apply F4, F3, F2|].
  - cbn [app] in E2, E3, E4.
    unfold SortBench.main. unfold bind at 1. unfold list_new. fold lines σ1.
    cbn [for_in SortBench.sorts app]. unfold bind at 1. unfold bind at 1.
    rewrite E2. cbn [app]. unfold bind at 1. rewrite E3. cbn [app].
    unfold bind at 1. rewrite E4. done.
  - intros d x Hd. apply F4, F3, F2. unfold σ1. simpl.
    rewrite lookup_insert_ne; [done|congruence].
Qed.

(** ** Further properties of the loader *)

Module StripFacts.

Lemma lstrip_suffix (s : str) : Str.lstrip s `suffix_of` s.
Proof.
  induction s as [|c s IH]; [done|]. cbn [Str.lstrip].
  destruct (Str.is_space c); [by apply suffix_cons_r|done].
Qed.

Lemma lstrip_fixed (s : str) :
  (∀ c, head s = Some c → Str.is_space c = false) → Str.lstrip s = s.
Proof.
  destruct s as [|c s]; [done|]. intros Hc. cbn [Str.lstrip].
  by rewrite (Hc c eq_refl).
Qed.

(** What [strip] returns, unless it is empty, begins and ends with a code
    point that is not whitespace. *)
Lemma strip_ends (s : str) :
  Str.strip s ≠ [] →
  (∃ c, head (Str.strip s) = Some c ∧ Str.is_space c = false)
  ∧ (∃ c, last (Str.strip s) = Some c ∧ Str.is_space c = false).
Proof.
  unfold Str.strip, Str.rstrip. intros Hne.
  destruct (Str.lstrip (reverse (Str.lstrip s))) as [|c w] eqn:Ew; [done|].
  pose proof (StrFacts.lstrip_head _ _ _ Ew) as Hc.
  split; [|exists c; by rewrite last_reverse].
  pose proof (lstrip_suffix (reverse (Str.lstrip s))) as [pre Hpre].
  rewrite Ew in Hpre. rewrite head_reverse.
  assert (last (c :: w) = head (Str.lstrip s)) as ->.
  { rewrite <-last_reverse, Hpre, last_app.
    destruct (last (c :: w)) eqn:E; [done|]. by apply last_None in E. }
  destruct (Str.lstrip s) as [|c' u] eqn:Eu.
  { rewrite reverse_nil in Hpre. by destruct pre. }
  exists c'. split; [done|]. by eapply StrFacts.lstrip_head.
Qed.

Lemma strip_strip (s : str) : Str.strip (Str.strip s) = Str.strip s.
Proof.
  destruct (decide (Str.strip s = [])) as [->|Hne]; [done|].
  destruct (strip_ends s Hne) as [(c1 & Hh & Hc1) (c2 & Hl & Hc2)].
  set (r := Str.strip s) in *. unfold Str.strip at 1, Str.rstrip.
  rewrite (lstrip_fixed r) by (intros c ?; congruence).
  rewrite (lstrip_fixed (reverse r)), reverse_involutive; [done|].
  intros c. rewrite head_reverse. congruence.
Qed.

End StripFacts.

(** X13: every record the loader returns is non-empty, begins and ends with
    a code point that is not whitespace, and is left as it is by another
    [strip]; loading the loaded listing again changes nothing. *)
Theorem loaded_records_are_trimmed (raw : list str) :
  Forall (fun s => (∃ c, head s = Some c ∧ Str.is_space c = false)
                   ∧ (∃ c, last s = Some c ∧ Str.is_space c = false)
                   ∧ Str.strip s = s) (Bench.load raw)
  ∧ Bench.load (Bench.load raw) = Bench.load raw.
Proof.
  assert (Forall (fun s => (∃ c, head s = Some c ∧ Str.is_space c = false)
                   ∧ (∃ c, last s = Some c ∧ Str.is_space c = false)
                   ∧ Str.strip s = s) (Bench.load raw)) as Hall.
  { rewrite BenchFacts.load_filter. apply Forall_forall.
    intros s [Hne (line & -> & _)%list_elem_of_fmap]%list_elem_of_filter.
    destruct (StripFacts.strip_ends line Hne) as [? ?].
    split_and!; [done..|]. apply StripFacts.strip_strip. }
  split; [done|].
  induction Hall as [|s l Hs _ IH]; [done|].
  destruct Hs as ((c & Hh & _) & _ & Hs).
  cbn [Bench.load]. rewrite Hs, IH. by destruct s.
Qed.

(** ** Further properties of the container benchmark *)

Section MoreFirstOccurrences.
Context {X : Type} `{EqDecision X}.

Lemma filter_other_id (l : list X) (x : X) :
  x ∉ l → filter (fun y => y ≠ x) l = l.
Proof.
  induction l as [|y l IH]; [done|].
  intros [Hne Hx]%not_elem_of_cons.
  rewrite filter_cons_True by congruence. f_equal. by apply IH.
Qed.

Lemma first_occurrences_NoDup (l : list X) :
  NoDup l → first_occurrences l = l.
Proof.
  induction 1 as [|x l Hx _ IH]; simpl; [done|].
  by rewrite IH, filter_other_id.
Qed.

End MoreFirstOccurrences.

Module PhaseFacts.
Import Bench.

(** The insertion loop over a list of new keys, with tags [i + c]. *)
Lemma fold_snoc (c : Z) (d0 : dict str Z) (ks : list str) (k : str) :
  foldl (fun d '(i, line) => dict_set d line (i + c)) d0 (enumerate (ks ++ [k]))
  = dict_set (foldl (fun d '(i, line) => dict_set d line (i + c)) d0
                (enumerate ks))
      k (Z.of_nat (length ks) + c).
Proof.
  unfold enumerate. rewrite imap_app, foldl_app. simpl.
  by rewrite Nat.add_0_r.
Qed.

Lemma fold_keys (c : Z) (d0 : dict str Z) (ks : list str) :
  dict_keys (foldl (fun d '(i, line) => dict_set d line (i + c)) d0
               (enumerate ks))
  = dict_keys d0
    ++ filter (fun k => k ∉ dict_keys d0) (first_occurrences ks).
Proof.
  induction ks as [|k ks IH] using rev_ind.
  { simpl. by rewrite app_nil_r. }
  rewrite fold_snoc, dict_keys_set, IH, first_occurrences_snoc.
  destruct (decide (k ∈ dict_keys d0)) as [Hold|Hold].
  - rewrite decide_True by (apply elem_of_app; by left).
    destruct (decide (k ∈ ks)); [done|].
    by rewrite filter_app, filter_cons_False, filter_nil, app_nil_r by tauto.
  - destruct (decide (k ∈ ks)) as [Hin|Hnin].
    + rewrite decide_True; [done|].
      apply elem_of_app. right. apply list_elem_of_filter.
      by rewrite elem_of_first_occurrences.
    + rewrite decide_False.
      * by rewrite filter_app, filter_cons_True, app_assoc by done.
      * rewrite elem_of_app, list_elem_of_filter, elem_of_first_occurrences.
        tauto.
Qed.

Lemma fold_get_new (c : Z) (d0 : dict str Z) (ks : list str) (i : nat)
    (k : str) :
  ks !! i = Some k → (∀ j, (i < j)%nat → ks !! j ≠ Some k) →
  dict_get (foldl (fun d '(i, line) => dict_set d line (i + c)) d0
              (enumerate ks)) k
  = Some (Z.of_nat i + c).
Proof.
  revert i. induction ks as [|y ks IH] using rev_ind; intros i Hi Hlast; [done|].
  rewrite fold_snoc, dict_get_set.
  destruct (decide (i = length ks)) as [->|Hne].
  - rewrite lookup_app_r, Nat.sub_diag in Hi by done. simpl in Hi.
    simplify_eq. by rewrite decide_True.
  - assert (i < length ks)%nat as Hlt.
    { apply lookup_lt_Some in Hi. rewrite length_app in Hi. simpl in Hi. lia. }
    rewrite lookup_app_l in Hi by done.
    rewrite decide_False.
    + apply IH; [done|]. intros j Hj Hx.
      apply (Hlast j Hj). by apply lookup_app_l_Some.
    + intros ->. apply (Hlast (length ks) Hlt).
      by rewrite lookup_app_r, Nat.sub_diag by done.
Qed.

Lemma fold_get_old (c : Z) (d0 : dict str Z) (ks : list str) (k : str) :
  k ∉ ks →
  dict_get (foldl (fun d '(i, line) => dict_set d line (i + c)) d0
              (enumerate ks)) k
  = dict_get d0 k.
Proof.
  induction ks as [|y ks IH] using rev_ind; intros Hk; [done|].
  apply not_elem_of_app in Hk as [Hk [Hy _]%not_elem_of_cons].
  rewrite fold_snoc, dict_get_set, decide_False by congruence. by apply IH.
Qed.

Lemma new_lines_NoDup : NoDup new_lines.
Proof. apply (bool_decide_unpack (NoDup new_lines)). by vm_compute. Qed.

Lemma new_lines_lookup (i : nat) :
  (i < 10)%nat → new_lines !! i = Some (new_file (Z.of_nat i)).
Proof.
  intros Hi. do 10 (destruct i as [|i]; [by vm_compute|]). lia.
Qed.

Lemma insert_ten_keys (cs : containers) :
  dict_keys (hashtable (insert_ten cs))
  = dict_keys (hashtable cs)
    ++ filter (fun k => k ∉ dict_keys (hashtable cs)) new_lines.
Proof.
  unfold insert_ten. cbn [hashtable]. rewrite fold_keys.
  by rewrite (first_occurrences_NoDup _ new_lines_NoDup).
Qed.

Lemma remove_ten_eq (cs : containers) :
  remove_ten (dict_keys (hashtable cs)) cs
  = Some (Containers (drop 10 (hashtable cs))
            (take (length (stack cs) - 10) (stack cs))
            (drop 10 (queue cs))).
Proof.
  unfold remove_ten.
  by rewrite BenchFacts.remove_stack_eq, BenchFacts.remove_queue_eq,
    BenchFacts.remove_hashtable_eq.
Qed.

End PhaseFacts.

(** X8: the removal phase never raises.  It takes the last ten items off the
    stack, the first ten off the queue and the ten oldest keys off the map,
    or all of them where there are fewer. *)
Theorem removal_takes_ten (cs : Bench.containers) :
  Bench.remove_ten (dict_keys (Bench.hashtable cs)) cs
  = Some (Bench.Containers
            (drop 10 (Bench.hashtable cs))
            (take (length (Bench.stack cs) - 10) (Bench.stack cs))
            (drop 10 (Bench.queue cs))).
Proof. apply PhaseFacts.remove_ten_eq. Qed.

(** X9: the insertion phase appends the ten new names, in order, to the
    stack and to the queue.  In the map, the names that are not yet keys are
    appended in order while a name that is already a key keeps its place;
    either way the name number [i] ends with tag [i + 999999], and the tags
    of all other keys are unchanged. *)
Theorem insertion_appends_new_lines (cs : Bench.containers) :
  Bench.stack (Bench.insert_ten cs) = Bench.stack cs ++ Bench.new_lines
  ∧ Bench.queue (Bench.insert_ten cs) = Bench.queue cs ++ Bench.new_lines
  ∧ dict_keys (Bench.hashtable (Bench.insert_ten cs))
    = dict_keys (Bench.hashtable cs)
      ++ filter (fun k => k ∉ dict_keys (Bench.hashtable cs)) Bench.new_lines
  ∧ (∀ i : nat, (i < 10)%nat →
       dict_get (Bench.hashtable (Bench.insert_ten cs))
                (Bench.new_file (Z.of_nat i))
       = Some (Z.of_nat i + 999999))
  ∧ (∀ k, k ∉ Bench.new_lines →
       dict_get (Bench.hashtable (Bench.insert_ten cs)) k
       = dict_get (Bench.hashtable cs) k).
Proof.
  unfold Bench.insert_ten. cbn [Bench.stack Bench.queue Bench.hashtable].
  split_and!.
  - apply BenchFacts.foldl_snoc.
  - apply BenchFacts.foldl_snoc.
  - apply (PhaseFacts.insert_ten_keys cs).
  - intros i Hi. apply PhaseFacts.fold_get_new.
    + by apply PhaseFacts.new_lines_lookup.
    + intros j Hj Hdup.
      pose proof (NoDup_lookup _ _ _ _ PhaseFacts.new_lines_NoDup
                    (PhaseFacts.new_lines_lookup i Hi) Hdup). lia.
  - intros k Hk. by apply PhaseFacts.fold_get_old.
Qed.



(** X12: when no record of the listing is repeated, a probe at a position
    within the listing finds the same record, the line at that position, in
    the stack, in the queue and in the map. *)
Theorem probes_agree_without_duplicates (lines : list str) (p : nat)
    (x : str) :
  NoDup lines →
  lines !! p = Some x →
  let cs := Bench.build lines in
  let pos := Z.of_nat (S p) in
  Bench.probe Bench.Stack (Bench.stack cs) pos
  = Some (Bench.Found Bench.Stack pos x)
  ∧ Bench.probe Bench.Queue (Bench.queue cs) pos
    = Some (Bench.Found Bench.Queue pos x)
  ∧ Bench.probe Bench.Hashtable (dict_keys (Bench.hashtable cs)) pos
    = Some (Bench.Found Bench.Hashtable pos x).
Proof.
  intros Hnd Hp cs pos. unfold cs, pos. cbn [Bench.build Bench.stack
    Bench.queue Bench.hashtable].
  rewrite BenchFacts.build_stack_eq, BenchFacts.build_queue_eq,
    BenchFacts.build_hashtable_keys, (first_occurrences_NoDup _ Hnd).
  split_and!; by apply BenchFacts.probe_found.
Qed.

Lemma probes_agree_without_duplicates_witness :
  let lines := strs ["a.txt"; "b.txt"; "c.txt"] in
  let cs := Bench.build lines in
  Bench.probe Bench.Stack (Bench.stack cs) 2
  = Some (Bench.Found Bench.Stack 2 (Str.of_string "b.txt"))
  ∧ Bench.probe Bench.Queue (Bench.queue cs) 2
    = Some (Bench.Found Bench.Queue 2 (Str.of_string "b.txt"))
  ∧ Bench.probe Bench.Hashtable (dict_keys (Bench.hashtable cs)) 2
    = Some (Bench.Found Bench.Hashtable 2 (Str.of_string "b.txt")).
Proof.
  intros lines.
  apply (probes_agree_without_duplicates lines 1 (Str.of_string "b.txt")).
  - apply (bool_decide_unpack (NoDup _)). by vm_compute.
  - reflexivity.
Defined.




(** ** Concrete runs *)

Example compare_by_code_point :
  Str.lt (Str.of_string "Zebra") (Str.of_string "apple") = true
  ∧ Str.lt (Str.of_string "fig") (Str.of_string "figs") = true
  ∧ Str.gt (Str.of_string "fig") (Str.of_string "fig") = false.
Proof. by vm_compute. Qed.

Example strip_trims_both_ends :
  Str.strip [32; 9; 97; 32; 98; 13; 10]%N = [97; 32; 98]%N
  ∧ Str.strip [32; 160; 10]%N = [].
Proof. by vm_compute. Qed.

Example load_skips_blank_lines :
  Bench.load [[97; 10]; [10]; [32; 9; 10]; [32; 98; 32; 10]; [97]]%N
  = [[97]; [98]; [97]]%N.
Proof. by vm_compute. Qed.

Example insertion_sort_keeps_positions :
  result (insertion_sort 1%positive)
         (store_of (tag_positions (strs ["b"; "a"; "c"; "a"])))
  = Some [(Str.of_string "a", 1%nat); (Str.of_string "a", 3%nat);
          (Str.of_string "b", 0%nat); (Str.of_string "c", 2%nat)].
Proof. by vm_compute. Qed.

Example bubble_sort_trace_of_two :
  trace <$> (snd <$> bubble_sort 1%positive (store_of (strs ["b"; "a"])))
  = Some [GetItem 2%positive 0 (Str.of_string "b");
          GetItem 2%positive 1 (Str.of_string "a");
          GetItem 2%positive 1 (Str.of_string "a");
          GetItem 2%positive 0 (Str.of_string "b");
          SetItem 2%positive 0 (Str.of_string "a");
          SetItem 2%positive 1 (Str.of_string "b")].
Proof. by vm_compute. Qed.

Example hashtable_of_listing_with_duplicate :
  Bench.build_hashtable (strs ["a.txt"; "b.txt"; "a.txt"; "d.txt"])
  = [(Str.of_string "a.txt", 2); (Str.of_string "b.txt", 1);
     (Str.of_string "d.txt", 3)].
Proof. by vm_compute. Qed.

Example retrieval_of_four_lines :
  fst <$> Bench.main (strs ["a.txt"; "b.txt"; "a.txt"; "d.txt"])
  = Some [Bench.Found Bench.Stack 1 (Str.of_string "a.txt");
          Bench.OutOfRange Bench.Stack 100;
          Bench.OutOfRange Bench.Stack 1000;
          Bench.OutOfRange Bench.Stack 5000;
          Bench.Found Bench.Stack 4 (Str.of_string "d.txt");
          Bench.Found Bench.Queue 1 (Str.of_string "a.txt");
          Bench.OutOfRange Bench.Queue 100;
          Bench.OutOfRange Bench.Queue 1000;
          Bench.OutOfRange Bench.Queue 5000;
          Bench.Found Bench.Queue 4 (Str.of_string "d.txt");
          Bench.Found Bench.Hashtable 1 (Str.of_string "a.txt");
          Bench.OutOfRange Bench.Hashtable 100;
          Bench.OutOfRange Bench.Hashtable 1000;
          Bench.OutOfRange Bench.Hashtable 5000;
          Bench.OutOfRange Bench.Hashtable 4].
Proof. by vm_compute. Qed.

(** With an empty listing the last probe position is [N = 0]; the guard
    [0 <= len(stack)] holds and [stack[-1]] raises [IndexError]. *)
Example main_of_empty_listing_raises : Bench.main [] = None.
Proof. by vm_compute. Qed.
